(** * Offline-first storage of the graduation portal

    A shallow embedding of the persistence code of the portal, and the
    properties of it that the design document states.

    The code:
    - [Js]: the fragment of the JavaScript runtime the storage code relies
      on (property lookup, [===], [<], [Array.prototype.slice], [Date],
      [Math.random]), and what ECMAScript lays down for
      [Array.prototype.sort];
    - [BaseStorage]: [src/services/storage/BaseStorageService.ts], the
      generic CRUD service over one persisted array;
    - [WebStorage]: the [StorageService] class of
      [src/services/StorageService.web.ts] over IndexedDB object stores;
    - [ProjectDetail]: the handlers of the project detail screen that
      create and toggle tasks and attach evidence.

    The vocabulary of the properties is in [BaseStorageSpec] and
    [SyncSpec], concrete stores in [Samples], and the proofs in [JsFacts],
    [BaseStorageFacts], [WebStorageFacts], [ScreenFacts] and [SyncFacts].

    A record is a finite map from property names to values; numbers are
    integers and strings are byte strings.  [Array.prototype.sort] is the
    sort of the engine that runs the code: a parameter, of which the
    properties assume what ECMAScript requires of every engine.  The storage media
    (AsyncStorage, IndexedDB) are taken to be reliable: a read returns what
    the last write stored, and no read or write throws.  The hooks
    [afterCreate], [afterUpdate] and [afterDelete] are the no-ops of the
    base class; [validate] is a parameter.  Asynchronous methods run to
    completion one after the other. *)

From Stdlib Require Import ZArith Lia Bool.
From Stdlib Require OrderedTypeEx.
From stdpp Require Import base option list gmap strings pretty sorting fin_maps.

Local Open Scope Z_scope.

(* ================================================================== *)
(** * The JavaScript fragment *)
(* ================================================================== *)
Module Js.

(** Values held in the properties of a record.  A [Date] carries its time
    value in milliseconds; [undefined] is the absence of a property, so
    reading a property yields an [option value]. *)
#[warnings="-register-all"]
Inductive value : Type :=
  | VNull
  | VBool (b : bool)
  | VNum (n : Z)
  | VStr (s : string)
  | VDate (ms : Z)
  | VArr (elems : list value)
  | VObj (props : list (string * value)).

(** A record ([Record<string, any>]): a finite map from property names. *)
Abbreviation obj := (gmap string value).

(** The parts of the runtime that are functions of their argument only and
    whose definition the storage code does not depend on. *)
Class Runtime := {
  (** [StringToNumber]: [None] is [NaN]. *)
  string_to_number : string → option Z;
  (** [String(v)] of an array or a plain object. *)
  object_to_string : value → string;
  (** [Date.prototype.toISOString] of a time value. *)
  toISOString : Z → string;
  (** [String.prototype.trim]. *)
  trim : string → string;
  (** The time value of [new Date(s)]. *)
  date_parse : string → Z;
  (** [arr.sort(cmp)] on an array of records: the sort of the engine. *)
  array_sort : (obj → obj → Z) → list obj → list obj
}.

(** [a === b].  Arrays, objects and dates are compared by reference, and a
    value read back from a store never is the operand it is compared with. *)
Definition strict_eq (a b : option value) : bool :=
  match a, b with
  | None, None => true
  | Some VNull, Some VNull => true
  | Some (VBool x), Some (VBool y) => Bool.eqb x y
  | Some (VNum x), Some (VNum y) => Z.eqb x y
  | Some (VStr x), Some (VStr y) => String.eqb x y
  | _, _ => false
  end.

(** Truthiness of a property ([if (x)], [x || y]). *)
Definition truthy (a : option value) : bool :=
  match a with
  | None | Some VNull => false
  | Some (VBool b) => b
  | Some (VNum n) => negb (Z.eqb n 0)
  | Some (VStr s) => negb (String.eqb s "")
  | Some (VDate _) | Some (VArr _) | Some (VObj _) => true
  end.

Definition truthy_str (s : string) : bool := negb (String.eqb s "").

(** [ToPrimitive] with hint number, the first step of [<]. *)
Inductive prim : Type :=
  | PUndef | PNull | PBool (b : bool) | PNum (n : Z) | PStr (s : string).

Definition to_primitive `{Runtime} (a : option value) : prim :=
  match a with
  | None => PUndef
  | Some VNull => PNull
  | Some (VBool b) => PBool b
  | Some (VNum n) => PNum n
  | Some (VStr s) => PStr s
  | Some (VDate ms) => PNum ms
  | Some (VArr l) => PStr (object_to_string (VArr l))
  | Some (VObj l) => PStr (object_to_string (VObj l))
  end.

Definition to_number `{Runtime} (p : prim) : option Z :=
  match p with
  | PUndef => None
  | PNull => Some 0
  | PBool b => Some (if b then 1 else 0)
  | PNum n => Some n
  | PStr s => string_to_number s
  end.

(** [a < b]: two strings are compared as strings, anything else as numbers,
    and a comparison with [NaN] is false. *)
Definition js_lt `{Runtime} (a b : option value) : bool :=
  match to_primitive a, to_primitive b with
  | PStr x, PStr y => String.ltb x y
  | pa, pb =>
      match to_number pa, to_number pb with
      | Some x, Some y => Z.ltb x y
      | _, _ => false
      end
  end.

(** [arr.slice(start)] and [arr.slice(0, end)] on integers: a negative
    index counts from the end of the array. *)
Definition slice_from {A} (start : Z) (l : list A) : list A :=
  let len := Z.of_nat (length l) in
  let k := if start <? 0 then Z.max (len + start) 0 else Z.min start len in
  drop (Z.to_nat k) l.

Definition slice_to {A} (stop : Z) (l : list A) : list A :=
  let len := Z.of_nat (length l) in
  let k := if stop <? 0 then Z.max (len + stop) 0 else Z.min stop len in
  take (Z.to_nat k) l.

(** [arr.slice(start, end)] on integers. *)
Definition slice {A} (start stop : Z) (l : list A) : list A :=
  let len := Z.of_nat (length l) in
  let k := if start <? 0 then Z.max (len + start) 0 else Z.min start len in
  let final := if stop <? 0 then Z.max (len + stop) 0 else Z.min stop len in
  take (Z.to_nat (Z.max (final - k) 0)) (drop (Z.to_nat k) l).

(** A consistent comparator for the elements of [l], as ECMAScript defines
    it for [Array.prototype.sort]: on them, comparing equal is reflexive,
    symmetric and transitive, and comparing less and comparing greater are
    transitive. *)
Definition consistent (cmp : obj → obj → Z) (l : list obj) : Prop :=
  ∀ a b c, a ∈ l → b ∈ l → c ∈ l →
    cmp a a = 0
    ∧ (cmp a b = 0 → cmp b a = 0)
    ∧ (cmp a b = 0 → cmp b c = 0 → cmp a c = 0)
    ∧ (cmp a b < 0 → cmp b c < 0 → cmp a c < 0)
    ∧ (0 < cmp a b → 0 < cmp b c → 0 < cmp a c).

(** What ECMAScript requires of [Array.prototype.sort].  The result holds
    the elements of the array.  With a consistent comparator, no element
    stands after one that it compares less than, and the elements that
    compare equal keep the order they had.  With another comparator the
    order is left to the engine. *)
Class SortLaws `{Runtime} : Prop := {
  sort_permutes : ∀ cmp l, array_sort cmp l ≡ₚ l;
  sort_orders : ∀ cmp l,
    consistent cmp l →
    StronglySorted (λ x y, ¬ cmp y x < 0) (array_sort cmp l);
  sort_stable : ∀ cmp l x,
    consistent cmp l → x ∈ l →
    List.filter (λ y, cmp x y =? 0) (array_sort cmp l)
    = List.filter (λ y, cmp x y =? 0) l
}.

(** [arr.findIndex(p)], with [None] for [-1]. *)
Fixpoint findIndex {A} (p : A → bool) (l : list A) : option nat :=
  match l with
  | [] => None
  | x :: l' => if p x then Some 0%nat else S <$> findIndex p l'
  end.

(** [arr.find(p)]. *)
Fixpoint find {A} (p : A → bool) (l : list A) : option A :=
  match l with
  | [] => None
  | x :: l' => if p x then Some x else find p l'
  end.

(** The world outside the program: the successive readings of the clock
    and the successive results of
    [Math.random().toString(36).substr(2, 9)]. *)
Record World := {
  clock : nat → Z;
  random : nat → string;
  ticks : nat;
  draws : nat
}.

(** Programs over a store of type [St] and the world. *)
Definition M (St A : Type) : Type := St → World → A * St * World.

#[global] Instance M_ret {St} : MRet (M St) := λ A a s w, (a, s, w).

#[global] Instance M_bind {St} : MBind (M St) :=
  λ A B f m s w, let '(a, s', w') := m s w in f a s' w'.

Definition get_store {St} : M St St := λ s w, (s, s, w).
Definition set_store {St} (s' : St) : M St unit := λ _ w, (tt, s', w).

(** [Date.now()] *)
Definition date_now {St} : M St Z :=
  λ s w, (clock w (ticks w), s,
          {| clock := clock w; random := random w;
             ticks := S (ticks w); draws := draws w |}).

(** [Math.random().toString(36).substr(2, 9)] *)
Definition random_suffix {St} : M St string :=
  λ s w, (random w (draws w), s,
          {| clock := clock w; random := random w;
             ticks := ticks w; draws := S (draws w) |}).

(** What a run returns, and the store it leaves. *)
Definition returned {St A} (r : A * St * World) : A := r.1.1.
Definition stored {St A} (r : A * St * World) : St := r.1.2.
Definition world_after {St A} (r : A * St * World) : World := r.2.

End Js.

(* ================================================================== *)
(** * BaseStorageService *)
(* ================================================================== *)
Module BaseStorage.
Import Js.

(** ** Types of [storage/types.ts] *)

Record TimestampFields := {
  createdAt : option string;
  updatedAt : option string
}.

(** [this.config]; a property that is absent or [undefined] is [None]. *)
Record StorageConfig := {
  key_name : string;
  idField : option string;
  timestampFields : option TimestampFields
}.

(** The constructor: the defaults, overridden by the properties present in
    the argument. *)
Definition constructor (config : StorageConfig) : StorageConfig :=
  {| key_name := key_name config;
     idField := Some (default "id" (idField config));
     timestampFields :=
       Some (default {| createdAt := Some "createdAt";
                        updatedAt := Some "updatedAt" |}
                     (timestampFields config)) |}.

(** [where]: a predicate or a partial record of field/value pairs. *)
Inductive Where :=
  | WhereFn (p : obj → bool)
  | WhereObj (fields : obj).

Inductive Order := Asc | Desc.

Record FilterOptions := {
  where_ : option Where;
  orderBy : option string;
  order : option Order;
  limit : option Z;
  offset : option Z
}.

Record StorageResult (T : Type) := {
  success : bool;
  data : option T;
  error : option string
}.
Arguments success {T} _.
Arguments data {T} _.
Arguments error {T} _.

Record BulkError := { index : Z; message : string }.

Record BulkStorageResult (T : Type) := {
  bulk_success : bool;
  bulk_data : option (list T);
  bulk_errors : option (list BulkError)
}.
Arguments bulk_success {T} _.
Arguments bulk_data {T} _.
Arguments bulk_errors {T} _.

Record PaginatedResult (T : Type) := {
  paged_data : list T;
  total : Z;
  paged_page : Z;
  paged_pageSize : Z;
  hasMore : bool
}.
Arguments paged_data {T} _.
Arguments total {T} _.
Arguments paged_page {T} _.
Arguments paged_pageSize {T} _.
Arguments hasMore {T} _.

Inductive UpdateType := PUT | PATCH.

(** An [id: string | number]. *)
Inductive Id := IdStr (s : string) | IdNum (n : Z).

Definition id_value (id : Id) : value :=
  match id with IdStr s => VStr s | IdNum n => VNum n end.

(** What a call of the [validate] hook does: resolve to
    [{success: true}], resolve to [{success: false, error}], or throw. *)
Inductive Validation :=
  | Valid
  | Invalid (error : option string)
  | Throws (error : string).

(** The persisted array, as [JSON.parse] returns it; the records are JSON
    data, which [JSON.stringify] and [JSON.parse] hand back as they were. *)
Abbreviation Store := (list obj).

Section Service.
Context `{Runtime}.
Variable config : StorageConfig.
(** The [validate] hook of the subclass; it may read the persisted array. *)
Variable validate : Store → obj → Validation.

Definition getKeyName : string := key_name config.

Definition getIdField : string :=
  match idField config with
  | Some f => if truthy_str f then f else "id"
  | None => "id"
  end.

Definition generateId : M Store string :=
  t ← date_now;
  r ← random_suffix;
  mret (pretty t +:+ "_" +:+ r).

Definition addTimestamps (item : obj) (isNew : bool) : M Store obj :=
  let result := item in
  let fields := default {| createdAt := None; updatedAt := None |}
                        (timestampFields config) in
  result ←
    match createdAt fields with
    | Some c =>
        if isNew && truthy_str c
        then t ← date_now; mret (<[c := VStr (toISOString t)]> result)
        else mret result
    | None => mret result
    end;
  match updatedAt fields with
  | Some u =>
      if truthy_str u
      then t ← date_now; mret (<[u := VStr (toISOString t)]> result)
      else mret result
  | None => mret result
  end.

Definition readStorage : M Store Store := get_store.
Definition writeStorage (data : Store) : M Store unit := set_store data.

(** [Object.entries(w).every(([key, value]) => item[key] === value)] *)
Definition matches (w : obj) (item : obj) : bool :=
  forallb (λ kv, strict_eq (item !! kv.1) (Some kv.2)) (map_to_list w).

Definition where_test (w : Where) (item : obj) : bool :=
  match w with
  | WhereFn p => p item
  | WhereObj fields => matches fields item
  end.

(** The comparator handed to [sort] in [applyFilters]. *)
Definition compareBy (field : string) (o : option Order) (a b : obj) : Z :=
  let aVal := a !! field in
  let bVal := b !! field in
  let order := match o with Some Desc => -1 | _ => 1 end in
  if js_lt aVal bVal then -1 * order
  else if js_lt bVal aVal then 1 * order
  else 0.

Definition applyFilters (data : Store) (options : option FilterOptions)
  : Store :=
  let result := data in
  let result :=
    match options ≫= where_ with
    | Some w => List.filter (where_test w) result
    | None => result
    end in
  let result :=
    match options ≫= orderBy with
    | Some f =>
        if truthy_str f
        then array_sort (compareBy f (options ≫= order)) result
        else result
    | None => result
    end in
  let result :=
    match options ≫= offset with
    | Some o => slice_from o result
    | None => result
    end in
  let result :=
    match options ≫= limit with
    | Some k => slice_to k result
    | None => result
    end in
  result.

Definition getAll (options : option FilterOptions) : M Store Store :=
  data ← readStorage;
  mret (match options with
       | Some _ => applyFilters data options
       | None => data
       end).

Definition has_id (idField : string) (id : Id) (item : obj) : bool :=
  strict_eq (item !! idField) (Some (id_value id)).

Definition getById (id : Id) : M Store (option obj) :=
  data ← readStorage;
  let idField := getIdField in
  mret (find (has_id idField id) data).

Definition notOk {T} (e : option string) : StorageResult T :=
  {| success := false; data := None; error := e |}.

Definition ok {T} (x : T) : StorageResult T :=
  {| success := true; data := Some x; error := None |}.

Definition create (item : obj) : M Store (StorageResult obj) :=
  data ← readStorage;
  let idField := getIdField in
  newItem ←
    match item !! idField with
    | Some _ => mret item
    | None => id ← generateId; mret (<[idField := VStr id]> item)
    end;
  newItem ← addTimestamps newItem true;
  match validate data newItem with
  | Invalid e => mret (notOk e)
  | Throws e => mret (notOk (Some e))
  | Valid =>
      writeStorage (data ++ [newItem]);;
      mret (ok newItem)
  end.

(** The body of the [for] loop of [createBulk], from index [i] on. *)
Fixpoint createBulk_loop (data : Store) (idField : string)
    (items : list obj) (i : Z) (newItems : list obj)
    (errors : list BulkError) : M Store (list obj * list BulkError) :=
  match items with
  | [] => mret (newItems, errors)
  | item :: rest =>
      newItem ←
        match item !! idField with
        | Some _ => mret item
        | None => id ← generateId; mret (<[idField := VStr id]> item)
        end;
      newItem ← addTimestamps newItem true;
      match validate data newItem with
      | Invalid e =>
          let msg := match e with
                     | Some s => if truthy_str s then s
                                 else "Validation failed"
                     | None => "Validation failed"
                     end in
          createBulk_loop data idField rest (i + 1) newItems
            (errors ++ [{| index := i; message := msg |}])
      | Throws e =>
          createBulk_loop data idField rest (i + 1) newItems
            (errors ++ [{| index := i; message := e |}])
      | Valid =>
          createBulk_loop data idField rest (i + 1)
            (newItems ++ [newItem]) errors
      end
  end.

Definition createBulk (items : list obj) : M Store (BulkStorageResult obj) :=
  data ← readStorage;
  let idField := getIdField in
  '(newItems, errors) ← createBulk_loop data idField items 0 [] [];
  (if 0 <? Z.of_nat (length newItems)
   then writeStorage (data ++ newItems)
   else mret tt);;
  mret {| bulk_success := Z.of_nat (length errors) =? 0;
         bulk_data := Some newItems;
         bulk_errors := if 0 <? Z.of_nat (length errors)
                        then Some errors else None |}.

Definition put (id : Id) (item : obj) : M Store (StorageResult obj) :=
  data ← readStorage;
  let idField := getIdField in
  match findIndex (has_id idField id) data with
  | None => mret (notOk (Some "Item not found"))
  | Some index =>
      let updatedItem := <[idField := id_value id]> item in
      updatedItem ← addTimestamps updatedItem false;
      match validate data updatedItem with
      | Invalid e => mret (notOk e)
      | Throws e => mret (notOk (Some e))
      | Valid =>
          writeStorage (<[index := updatedItem]> data);;
          mret (ok updatedItem)
      end
  end.

Definition patch (id : Id) (updates : obj) : M Store (StorageResult obj) :=
  data ← readStorage;
  let idField := getIdField in
  match findIndex (has_id idField id) data with
  | None => mret (notOk (Some "Item not found"))
  | Some index =>
      let updatedItem := updates ∪ default ∅ (data !! index) in
      let updatedItem := <[idField := id_value id]> updatedItem in
      updatedItem ← addTimestamps updatedItem false;
      match validate data updatedItem with
      | Invalid e => mret (notOk e)
      | Throws e => mret (notOk (Some e))
      | Valid =>
          writeStorage (<[index := updatedItem]> data);;
          mret (ok updatedItem)
      end
  end.

Definition delete (id : Id) : M Store (StorageResult bool) :=
  data ← readStorage;
  let idField := getIdField in
  match findIndex (has_id idField id) data with
  | None => mret (notOk (Some "Item not found"))
  | Some index =>
      writeStorage (base.delete index data);;
      mret (ok true)
  end.

(** [ids.includes(itemId)] *)
Definition includes (ids : list Id) (itemId : option value) : bool :=
  existsb (λ id, strict_eq itemId (Some (id_value id))) ids.

Definition deleteBulk (ids : list Id) : M Store (BulkStorageResult bool) :=
  data ← readStorage;
  let idField := getIdField in
  let remainingData :=
    List.filter (λ item, negb (includes ids (item !! idField))) data in
  writeStorage remainingData;;
  mret {| bulk_success := true; bulk_data := Some [true];
         bulk_errors := None |}.

Definition deleteWhere (criteria : Where) : M Store (StorageResult Z) :=
  data ← readStorage;
  let deletedCount :=
    Z.of_nat (length (List.filter (where_test criteria) data)) in
  let remainingData :=
    List.filter (λ item, negb (where_test criteria item)) data in
  writeStorage remainingData;;
  mret (ok deletedCount).

Definition clear : M Store (StorageResult bool) :=
  writeStorage [];;
  mret (ok true).

Definition count (options : option FilterOptions) : M Store Z :=
  data ← readStorage;
  let filteredData := match options with
                      | Some _ => applyFilters data options
                      | None => data
                      end in
  mret (Z.of_nat (length filteredData)).

Definition exists_ (id : Id) : M Store bool :=
  item ← getById id;
  mret (bool_decide (is_Some item)).

(** [getPaginated(page = 1, pageSize = 10, options)] *)
Definition getPaginated (page pageSize : option Z)
    (options : option FilterOptions) : M Store (PaginatedResult obj) :=
  let page := default 1 page in
  let pageSize := default 10 pageSize in
  allData ← readStorage;
  let filteredData := match options with
                      | Some _ => applyFilters allData options
                      | None => allData
                      end in
  let offset := (page - 1) * pageSize in
  let data := slice offset (offset + pageSize) filteredData in
  mret {| paged_data := data;
          total := Z.of_nat (length filteredData);
          paged_page := page;
          paged_pageSize := pageSize;
          hasMore := offset + pageSize <? Z.of_nat (length filteredData) |}.

(** [getByField(field, value)]; [value] may be [undefined]. *)
Definition getByField (field : string) (v : option value)
  : M Store (option obj) :=
  data ← readStorage;
  mret (find (λ item : obj, strict_eq (item !! field) v) data).

Definition getAllByField (field : string) (v : option value)
  : M Store Store :=
  data ← readStorage;
  mret (List.filter (λ item : obj, strict_eq (item !! field) v) data).

(** [update(id, updates, type = 'PATCH')] *)
Definition update (id : Id) (updates : obj) (type : option UpdateType)
  : M Store (StorageResult obj) :=
  match default PATCH type with
  | PUT => put id updates
  | PATCH => patch id updates
  end.

End Service.
End BaseStorage.

(* ================================================================== *)
(** * StorageService (web): IndexedDB object stores *)
(* ================================================================== *)
Module WebStorage.
Import Js.

(** The object stores with key path ['id'] that hold tasks and evidence.
    The keys of these stores are the [id] strings of the records. *)
Record DB := {
  tasks : gmap string obj;
  evidence : gmap string obj
}.

Inductive StoreName := TASKS | EVIDENCE.

Definition objectStore (db : DB) (storeName : StoreName) : gmap string obj :=
  match storeName with TASKS => tasks db | EVIDENCE => evidence db end.

Definition with_objectStore (db : DB) (storeName : StoreName)
    (s : gmap string obj) : DB :=
  match storeName with
  | TASKS => {| tasks := s; evidence := evidence db |}
  | EVIDENCE => {| tasks := tasks db; evidence := s |}
  end.

(** ** IndexedDBHelper *)

(** The records of a store in the order of their keys. *)
Definition key_le (x y : string * obj) : Prop := String.leb x.1 y.1.

Definition in_key_order (s : gmap string obj) : list obj :=
  (merge_sort key_le (map_to_list s)).*2.

Definition dbHelper_getAll (storeName : StoreName) : M DB (list obj) :=
  db ← get_store;
  mret (in_key_order (objectStore db storeName)).

Definition dbHelper_get (storeName : StoreName) (key : string)
  : M DB (option obj) :=
  db ← get_store;
  mret (objectStore db storeName !! key).

(** [store.put(value)]: the key is read at the key path.  The identifiers
    of tasks and evidence are strings; a value without one is not stored
    (the [DataError] is caught and logged by [put]). *)
Definition dbHelper_put (storeName : StoreName) (v : obj) : M DB unit :=
  db ← get_store;
  match v !! "id" with
  | Some (VStr key) =>
      set_store (with_objectStore db storeName
                   (<[key := v]> (objectStore db storeName)))
  | _ => mret tt
  end.

(** [index.getAll(value)]: the records whose indexed property is [value]. *)
Definition dbHelper_getByIndex (storeName : StoreName) (indexName : string)
    (v : string) : M DB (list obj) :=
  db ← get_store;
  mret (List.filter (λ r, strict_eq (r !! indexName) (Some (VStr v)))
          (in_key_order (objectStore db storeName))).

(** ** StorageService *)

Definition getTasks (projectId : option string) : M DB (list obj) :=
  match projectId with
  | Some p =>
      if truthy_str p then dbHelper_getByIndex TASKS "projectId" p
      else dbHelper_getAll TASKS
  | None => dbHelper_getAll TASKS
  end.

Definition addTask (task : obj) : M DB unit := dbHelper_put TASKS task.

Definition updateTask (taskId : string) (updates : obj) : M DB unit :=
  task ← dbHelper_get TASKS taskId;
  match task with
  | Some task =>
      now ← date_now;
      let updatedTask := <["updatedAt" := VDate now]> (updates ∪ task) in
      dbHelper_put TASKS updatedTask
  | None => mret tt
  end.

Definition getEvidence (taskId : string) : M DB (list obj) :=
  dbHelper_getByIndex EVIDENCE "taskId" taskId.

Definition addEvidence (e : obj) : M DB unit := dbHelper_put EVIDENCE e.

Definition getAllEvidence : M DB (list obj) := dbHelper_getAll EVIDENCE.

Definition updateEvidence (evidenceId : string) (updates : obj) : M DB unit :=
  e ← dbHelper_get EVIDENCE evidenceId;
  match e with
  | Some e =>
      let updatedEvidence := updates ∪ e in
      dbHelper_put EVIDENCE updatedEvidence
  | None => mret tt
  end.

(** The test of the two filters of [getItemsNeedingSync]. *)
Definition needsSyncing (r : obj) : bool :=
  truthy (r !! "needsSync")
  || strict_eq (r !! "syncStatus") (Some (VStr "pending"))
  || strict_eq (r !! "syncStatus") (Some (VStr "failed")).

Record ItemsNeedingSync := {
  pendingTasks : list obj;
  pendingEvidence : list obj
}.

Definition getItemsNeedingSync : M DB ItemsNeedingSync :=
  allTasks ← getTasks None;
  allEvidence ← getAllEvidence;
  let pendingTasks := List.filter needsSyncing allTasks in
  let pendingEvidence := List.filter needsSyncing allEvidence in
  mret {| pendingTasks := pendingTasks; pendingEvidence := pendingEvidence |}.

(** [putMany]: the store is cleared and the items are put one after the
    other; an item without an identifier ends the loop ([DataError]), and
    what has been requested until then is committed. *)
Fixpoint put_each (items : list obj) (s : gmap string obj)
  : gmap string obj :=
  match items with
  | [] => s
  | item :: rest =>
      match item !! "id" with
      | Some (VStr key) => put_each rest (<[key := item]> s)
      | _ => s
      end
  end.

Definition dbHelper_putMany (storeName : StoreName) (items : list obj)
  : M DB unit :=
  db ← get_store;
  set_store (with_objectStore db storeName (put_each items ∅)).

Definition saveTasks (tasks : list obj) : M DB unit :=
  dbHelper_putMany TASKS tasks.

End WebStorage.

(* ================================================================== *)
(** * The project detail screen *)
(* ================================================================== *)
Module ProjectDetail.
Import Js WebStorage.

(** The text fields of the add-task dialog. *)
Record NewTask := {
  title : string;
  description : string;
  dueDate : string
}.

(** The properties of an [UploadedFile] that the screen reads. *)
Record UploadedFile := {
  name : string;
  uri : string;
  type : string
}.

(** The component state that the handlers read or write, next to the
    database.  [project.progress], a rounded floating-point ratio, and the
    visibility of the dialogs are left out. *)
Record Screen := {
  project_id : string;
  screen_tasks : list obj;
  newTask : NewTask;
  isConnected : bool;
  selectedTaskId : option string;
  db : DB
}.

Definition setTasks (f : list obj → list obj) : M Screen unit :=
  λ s w, (tt, {| project_id := project_id s;
                 screen_tasks := f (screen_tasks s);
                 newTask := newTask s;
                 isConnected := isConnected s;
                 selectedTaskId := selectedTaskId s;
                 db := db s |}, w).

Definition setNewTask (n : NewTask) : M Screen unit :=
  λ s w, (tt, {| project_id := project_id s;
                 screen_tasks := screen_tasks s;
                 newTask := n;
                 isConnected := isConnected s;
                 selectedTaskId := selectedTaskId s;
                 db := db s |}, w).

(** A call into [StorageService]. *)
Definition storage {A} (m : M DB A) : M Screen A :=
  λ s w, let '(a, d, w') := m (db s) w in
         (a, {| project_id := project_id s;
                screen_tasks := screen_tasks s;
                newTask := newTask s;
                isConnected := isConnected s;
                selectedTaskId := selectedTaskId s;
                db := d |}, w').

Definition loadTasks : M Screen unit :=
  s ← get_store;
  projectTasks ← storage (getTasks (Some (project_id s)));
  setTasks (λ _, projectTasks).

Definition has_task_id (taskId : string) (t : obj) : bool :=
  strict_eq (t !! "id") (Some (VStr taskId)).

Definition handleToggleComplete (taskId : string) : M Screen unit :=
  s ← get_store;
  match find (has_task_id taskId) (screen_tasks s) with
  | None => mret tt
  | Some task =>
      let newStatus :=
        if strict_eq (task !! "status") (Some (VStr "completed"))
        then "pending" else "completed" in
      storage (updateTask taskId
                 {[ "status" := VStr newStatus;
                    "isOffline" := VBool (negb (isConnected s));
                    "needsSync" := VBool (negb (isConnected s)) ]});;
      setTasks (fmap (λ t, if has_task_id taskId t
                           then <["status" := VStr newStatus]> t else t))
  end.

Definition handleAddTask `{Runtime} : M Screen unit :=
  s ← get_store;
  if negb (truthy_str (trim (title (newTask s)))) then mret tt
  else
    id ← date_now;
    createdAt ← date_now;
    updatedAt ← date_now;
    let task : obj :=
      {[ "id" := VStr (pretty id);
         "projectId" := VStr (project_id s);
         "title" := VStr (title (newTask s));
         "description" := VStr (description (newTask s));
         "status" := VStr "pending";
         "evidence" := VArr [];
         "createdAt" := VDate createdAt;
         "updatedAt" := VDate updatedAt;
         "isOffline" := VBool (negb (isConnected s));
         "needsSync" := VBool (negb (isConnected s)) ]} in
    let task :=
      if truthy_str (dueDate (newTask s))
      then <["dueDate" := VDate (date_parse (dueDate (newTask s)))]> task
      else task in
    storage (addTask task);;
    setTasks (λ prevTasks, prevTasks ++ [task]);;
    setNewTask {| title := ""; description := ""; dueDate := "" |}.

Definition evidence_of (t : obj) : list value :=
  match t !! "evidence" with
  | Some (VArr l) => l
  | _ => []
  end.

Definition handleFileSelect (file : UploadedFile) : M Screen unit :=
  s ← get_store;
  match selectedTaskId s with
  | None => mret tt
  | Some selected =>
      if negb (truthy_str selected) then mret tt
      else
        id ← date_now;
        uploadedAt ← date_now;
        let e : obj :=
          {[ "id" := VStr ("evidence-" +:+ pretty id);
             "taskId" := VStr selected;
             "type" := VStr (if String.prefix "image/" (type file)
                             then "photo" else "document");
             "fileName" := VStr (name file);
             "filePath" := VStr (uri file);
             "uploadedAt" := VDate uploadedAt;
             "isOffline" := VBool (negb (isConnected s));
             "needsSync" := VBool (negb (isConnected s));
             "syncStatus" := VStr "pending" ]} in
        storage (addEvidence e);;
        setTasks (fmap (λ t,
          if has_task_id selected t
          then <["evidence" := VArr (evidence_of t
                                       ++ [VObj (map_to_list e)])]> t
          else t));;
        loadTasks
  end.

End ProjectDetail.

(* ================================================================== *)
(** * StorageService (web): the sync queue *)
(* ================================================================== *)
Module SyncQueueStore.
Import Js.

(** The value kept under the key ['queue'] of the object store
    ['sync_queue']; [lastSyncAt] is the time value of a [Date]. *)
Record SyncQueue := {
  queue_tasks : list obj;
  queue_evidence : list obj;
  lastSyncAt : option Z
}.

(** The object store ['sync_queue'], which has no key path. *)
Abbreviation QueueStore := (gmap string SyncQueue).

Definition emptyQueue : SyncQueue :=
  {| queue_tasks := []; queue_evidence := []; lastSyncAt := None |}.

Definition getSyncQueue : M QueueStore SyncQueue :=
  s ← get_store;
  mret (default emptyQueue (s !! "queue")).

Definition addToSyncQueue (item : obj) : M QueueStore unit :=
  queue ← getSyncQueue;
  let queue :=
    match item !! "projectId" with
    | Some _ =>
        {| queue_tasks := queue_tasks queue ++ [item];
           queue_evidence := queue_evidence queue;
           lastSyncAt := lastSyncAt queue |}
    | None =>
        {| queue_tasks := queue_tasks queue;
           queue_evidence := queue_evidence queue ++ [item];
           lastSyncAt := lastSyncAt queue |}
    end in
  s ← get_store;
  set_store (<["queue" := queue]> s).

Definition clearSyncQueue : M QueueStore unit :=
  s ← get_store;
  set_store (<["queue" := emptyQueue]> s).

Definition getLastSyncTimestamp : M QueueStore (option Z) :=
  syncQueue ← getSyncQueue;
  mret (lastSyncAt syncQueue).

Definition updateLastSyncTimestamp : M QueueStore unit :=
  queue ← getSyncQueue;
  now ← date_now;
  let queue := {| queue_tasks := queue_tasks queue;
                  queue_evidence := queue_evidence queue;
                  lastSyncAt := Some now |} in
  s ← get_store;
  set_store (<["queue" := queue]> s).

End SyncQueueStore.

(* ================================================================== *)
(** * CardListStorageService *)
(* ================================================================== *)
Module CardListStorage.
Import Js BaseStorage.

Section CardList.
Context `{Runtime}.
Variable keyName : string.

(** [super({ key_name: keyName })] *)
Definition config : StorageConfig :=
  constructor {| key_name := keyName; idField := None;
                 timestampFields := None |}.

(** The [validate] of the base class. *)
Definition validate (_ : Store) (_ : obj) : Validation := Valid.

Definition saveList (data : list obj) : M Store unit :=
  clear;;
  if 0 <? Z.of_nat (length data)
  then createBulk config validate data;; mret tt
  else mret tt.

Definition getList : M Store Store :=
  getAll (Some {| where_ := None; orderBy := Some "createdAt";
                  order := Some Desc; limit := None; offset := None |}).

Definition hasData : M Store bool :=
  count ← count None;
  mret (0 <? count).

End CardList.
End CardListStorage.

(* ================================================================== *)
(** * UserStorageService *)
(* ================================================================== *)
Module UserStorage.
Import Js BaseStorage.

Section Users.
Context `{Runtime}.
(** [emailRegex.test(v)] *)
Variable emailRegex_test : value → bool.
(** [String(e)] of the [TypeError] that calling [trim] on a value that is
    not a string raises. *)
Variable type_error : string.

Definition config : StorageConfig :=
  constructor
    {| key_name := "users"; idField := Some "id";
       timestampFields := Some {| createdAt := Some "createdAt";
                                  updatedAt := Some "updatedAt" |} |}.

(** The record that [getByField(field, item[field])] finds, when its [id]
    is not that of [item]. *)
Definition taken (data : Store) (field : string) (item : obj) : bool :=
  match find (λ r : obj, strict_eq (r !! field) (item !! field)) data with
  | Some existing => negb (strict_eq (existing !! "id") (item !! "id"))
  | None => false
  end.

Definition validate (data : Store) (item : obj) : Validation :=
  if negb (truthy (item !! "username"))
  then Invalid (Some "Username is required")
  else
    match item !! "username" with
    | Some (VStr username) =>
        if Z.of_nat (String.length (trim username)) =? 0
        then Invalid (Some "Username is required")
        else
          match item !! "email" with
          | Some email =>
              if negb (truthy (Some email)) || negb (emailRegex_test email)
              then Invalid (Some "Valid email is required")
              else if taken data "username" item
              then Invalid (Some "Username already exists")
              else if taken data "email" item
              then Invalid (Some "Email already exists")
              else Valid
          | None => Invalid (Some "Valid email is required")
          end
    | _ => Throws type_error
    end.

End Users.
End UserStorage.

(* ================================================================== *)
(** * Specification vocabulary *)
(* ================================================================== *)
Module BaseStorageSpec.
Import Js BaseStorage.

(** ** Queries *)

(** A value that is equal to itself under [===]: [null], a boolean, a
    number or a string.  An array, an object or a date read from the store
    is a fresh object, equal to no operand. *)
Definition primitive (v : value) : Prop :=
  match v with
  | VNull | VBool _ | VNum _ | VStr _ => True
  | VDate _ | VArr _ | VObj _ => False
  end.

(** The property read is the primitive value [v]. *)
Definition same_value (a : option value) (v : value) : Prop :=
  primitive v ∧ a = Some v.

#[global] Instance same_value_dec a v : Decision (same_value a v).
Proof.
  destruct (strict_eq a (Some v)) eqn:E; [left|right].
  - destruct a as [[]|], v; simpl in E; try discriminate E;
      (split; [exact I|]); do 2 f_equal.
    + by apply eqb_prop.
    + by apply Z.eqb_eq.
    + by apply String.eqb_eq.
  - intros [Hp ->]. destruct v; simpl in E, Hp; try done.
    + by rewrite eqb_reflx in E.
    + by rewrite Z.eqb_refl in E.
    + by rewrite String.eqb_refl in E.
Defined.

(** The record meets the [where] clause: the predicate holds of it, or it
    has every property of the criteria object with the same value. *)
Definition meets (w : Where) (r : obj) : Prop :=
  match w with
  | WhereFn p => p r = true
  | WhereObj criteria => map_Forall (λ k v, same_value (r !! k) v) criteria
  end.

#[global] Instance meets_dec w r : Decision (meets w r).
Proof. destruct w; simpl; apply _. Defined.

(** The records that a query with the optional clause [w] is about. *)
Definition selected (w : option Where) (r : obj) : Prop :=
  match w with
  | Some w => meets w r
  | None => True
  end.

#[global] Instance selected_dec w r : Decision (selected w r).
Proof. destruct w; simpl; apply _. Defined.

(** The identifier of the record is one of [ids]. *)
Definition listed (config : StorageConfig) (ids : list Id) (r : obj)
  : Prop :=
  Exists (λ id, r !! getIdField config = Some (id_value id)) ids.

#[global] Instance carries_id_dec (a : option value) (id : Id) :
  Decision (a = Some (id_value id)).
Proof.
  destruct (strict_eq a (Some (id_value id))) eqn:E; [left|right].
  - destruct a as [[]|], id; simpl in E; try discriminate E; simpl;
      do 2 f_equal; (by apply Z.eqb_eq) || (by apply String.eqb_eq).
  - intros ->. destruct id; simpl in E.
    + by rewrite String.eqb_refl in E.
    + by rewrite Z.eqb_refl in E.
Defined.

#[global] Instance listed_dec config ids r : Decision (listed config ids r).
Proof. unfold listed. apply _. Defined.

(** The key by which [<] compares a property: a number for [null], a
    boolean, a number or a date, the string for a string.  A property that
    is missing, an array or an object has none. *)
Inductive sort_key := KNum (n : Z) | KStr (s : string).

#[global] Instance sort_key_eq_dec : EqDecision sort_key.
Proof. solve_decision. Defined.


Definition key_le (a b : sort_key) : Prop :=
  match a, b with
  | KNum x, KNum y => x ≤ y
  | KStr s, KStr t => String.leb s t = true
  | _, _ => False
  end.



(** The number of elements that [slice(offset)] and then [slice(0, limit)]
    leave of [n]; a negative [offset] keeps that many of the last elements
    and a negative [limit] drops that many. *)
Definition sliced_length (n : Z) (offset limit : option Z) : Z :=
  let m := match offset with
           | None => n
           | Some o => if o <? 0 then Z.min (- o) n else Z.max (n - o) 0
           end in
  match limit with
  | None => m
  | Some k => if k <? 0 then Z.max (m + k) 0 else Z.min k m
  end.

(** The identifiers of the records of a collection, in storage order. *)
Definition ids (config : StorageConfig) (data : Store)
  : list (option value) :=
  (λ item : obj, item !! getIdField config) <$> data.

(** [id] is the identifier of no record of the collection. *)
Definition absent (config : StorageConfig) (id : Id) (data : Store) : Prop :=
  ∀ item, item ∈ data → has_id (getIdField config) id item = false.


(** The record at [index] is the first one with identifier [id]. *)
Definition first_at (config : StorageConfig) (id : Id) (data : Store)
    (index : nat) (old : obj) : Prop :=
  data !! index = Some old
  ∧ has_id (getIdField config) id old = true
  ∧ ∀ j item, (j < index)%nat → data !! j = Some item →
              has_id (getIdField config) id item = false.

(** The property names that [addTimestamps] writes. *)
Definition stamped_fields (config : StorageConfig) (isNew : bool)
  : list string :=
  let fields := default {| createdAt := None; updatedAt := None |}
                        (timestampFields config) in
  match createdAt fields with
  | Some c => if isNew && truthy_str c then [c] else []
  | None => []
  end ++
  match updatedAt fields with
  | Some u => if truthy_str u then [u] else []
  | None => []
  end.

Section Candidates.
Context `{Runtime}.
Variable config : StorageConfig.
Variable validate : Store → obj → Validation.

(** The record that [create] and [createBulk] build from an input item
    before they validate it: the item with an identifier and timestamps. *)
Definition prepare (item : obj) : M Store obj :=
  let idField := getIdField config in
  newItem ←
    match item !! idField with
    | Some _ => mret item
    | None => id ← generateId; mret (<[idField := VStr id]> item)
    end;
  addTimestamps config newItem true.

(** The records built from the items of a bulk call, one after the other. *)
Fixpoint candidates (items : list obj) (data : Store) (w : World)
  : list obj :=
  match items with
  | [] => []
  | item :: rest =>
      let r := prepare item data w in
      returned r :: candidates rest data (world_after r)
  end.

(** The record that [put] and [patch] validate and store in place of the
    record with identifier [id]. *)
Definition replacement (id : Id) (item : obj) : M Store obj :=
  addTimestamps config (<[getIdField config := id_value id]> item) false.

Definition passes (data : Store) (c : obj) : bool :=
  match validate data c with Valid => true | _ => false end.

(** The reason reported for a record that does not pass. *)
Definition reason (v : Validation) : string :=
  match v with
  | Valid => ""
  | Invalid (Some s) => if truthy_str s then s else "Validation failed"
  | Invalid None => "Validation failed"
  | Throws e => e
  end.

(** The error entries owed for the candidates numbered from [i] on. *)
Fixpoint failures (data : Store) (cands : list obj) (i : Z)
  : list BulkError :=
  match cands with
  | [] => []
  | c :: rest =>
      if passes data c then failures data rest (i + 1)
      else {| index := i; message := reason (validate data c) |}
           :: failures data rest (i + 1)
  end.

End Candidates.

End BaseStorageSpec.

Module SyncSpec.
Import Js WebStorage.

(** [r] is a record of the object store. *)
Definition record_of (db : DB) (storeName : StoreName) (r : obj) : Prop :=
  ∃ key, objectStore db storeName !! key = Some r.

(** A dirty record: [needsSync] is true or [syncStatus] is pending or
    failed. *)
Definition dirty (r : obj) : Prop :=
  r !! "needsSync" = Some (VBool true)
  ∨ r !! "syncStatus" = Some (VStr "pending")
  ∨ r !! "syncStatus" = Some (VStr "failed").

(** [needsSync?: boolean]: the flag is a boolean when it is present. *)
Definition flag_typed (r : obj) : Prop :=
  match r !! "needsSync" with
  | None | Some (VBool _) => True
  | Some _ => False
  end.

(** [needsSync == false] implies [syncStatus == synced]. *)
Definition sync_consistent (r : obj) : Prop :=
  r !! "needsSync" = Some (VBool false) →
  r !! "syncStatus" = Some (VStr "synced").

Definition db_consistent (db : DB) : Prop :=
  ∀ storeName r, record_of db storeName r → sync_consistent r.

(** The property of a record after a partial update: the value of the
    update when it carries the property, and the value stored before
    otherwise. *)
Definition merged_field (updates old : obj) (field : string)
  : option value :=
  match updates !! field with
  | Some v => Some v
  | None => old !! field
  end.

(** The update leaves the record with [needsSync == false] only when it
    leaves it with [syncStatus == synced]. *)
Definition update_consistent (updates old : obj) : Prop :=
  merged_field updates old "needsSync" = Some (VBool false) →
  merged_field updates old "syncStatus" = Some (VStr "synced").

(** The property of the record stored under [key]. *)
Definition field_of (s : gmap string obj) (key field : string)
  : option value :=
  s !! key ≫= (λ r : obj, r !! field).

End SyncSpec.

Module ExtraSpec.
Import Js BaseStorage BaseStorageSpec WebStorage.

Section Spec.
Context `{Runtime}.
Variable config : StorageConfig.
Variable validate : Store → obj → Validation.

(** The records of the pages 1 to [n], one page after the other. *)
Fixpoint pages (n : nat) (pageSize : Z) (options : option FilterOptions)
    (data : Store) (w : World) : Store :=
  match n with
  | O => []
  | S m =>
      pages m pageSize options data w
      ++ paged_data
           (returned (getPaginated (Some (Z.of_nat (S m))) (Some pageSize)
                        options data w))
  end.

(** The collection and the world after [create] has been called on the
    items one after the other. *)
Fixpoint create_each (items : list obj) (data : Store) (w : World)
  : Store * World :=
  match items with
  | [] => (data, w)
  | item :: rest =>
      let r := create config validate item data w in
      create_each rest (stored r) (world_after r)
  end.

(** The hook gives the same verdict whatever the collection holds. *)
Definition store_independent : Prop :=
  ∀ (d d' : Store) (item : obj), validate d item = validate d' item.

End Spec.

(** The values of a property over the records of a collection. *)
Definition column (field : string) (data : Store) : list (option value) :=
  (λ r : obj, r !! field) <$> data.

(** Every record of an object store is kept under its own [id]. *)
Definition keyed (s : gmap string obj) : Prop :=
  ∀ key r, s !! key = Some r → r !! "id" = Some (VStr key).

Definition db_keyed (d : DB) : Prop := keyed (tasks d) ∧ keyed (evidence d).

(** One [put] of a record under a key. *)
Definition store_pair (acc : gmap string obj) (kr : string * obj)
  : gmap string obj := <[kr.1 := kr.2]> acc.


End ExtraSpec.

(* ================================================================== *)
(** * Sample data *)
(* ================================================================== *)
Module Samples.
Import Js BaseStorage WebStorage ProjectDetail.

(** An insertion sort, which keeps [x] before [y] unless [cmp x y > 0]. *)
Fixpoint sort_insert {A} (cmp : A → A → Z) (x : A) (l : list A) : list A :=
  match l with
  | [] => [x]
  | y :: l' => if 0 <? cmp x y then y :: sort_insert cmp x l' else x :: y :: l'
  end.

Definition insertion_sort {A} (cmp : A → A → Z) (l : list A) : list A :=
  foldr (sort_insert cmp) [] l.

(** A runtime in which no string denotes a number and arrays are sorted by
    insertion. *)
Definition runtime : Runtime :=
  {| string_to_number := λ _, None;
     object_to_string := λ _, "[object Object]";
     toISOString := λ t, pretty t;
     trim := λ s, s;
     date_parse := λ _, 0;
     array_sort := insertion_sort |}.

(** A clock that advances by one millisecond per reading, from 1000. *)
Definition world : World :=
  {| clock := λ n, 1000 + Z.of_nat n;
     random := λ n, "r" +:+ pretty n;
     ticks := 0; draws := 0 |}.

Definition defaults : StorageConfig :=
  constructor {| key_name := "items"; idField := None;
                 timestampFields := None |}.

Definition priced (id : string) (price : Z) : obj :=
  {[ "id" := VStr id; "price" := VNum price ]}.

Definition catalogue : Store :=
  [priced "a" 30; priced "b" 10; priced "c" 20].

Definition accept_all (_ : Store) (_ : obj) : Validation := Valid.

(** A hook that rejects a record without a price. *)
Definition needs_price (_ : Store) (item : obj) : Validation :=
  if truthy (item !! "price") then Valid
  else Invalid (Some "price required").

Definition batch : list obj :=
  [priced "d" 5; {[ "id" := VStr "e" ]}; priced "f" 7].

(** Records in the shape of the sample data of the application. *)
Definition pending_task : obj :=
  {[ "id" := VStr "task-1"; "projectId" := VStr "1";
     "title" := VStr "Complete project documentation";
     "status" := VStr "pending";
     "needsSync" := VBool true; "syncStatus" := VStr "pending" ]}.

Definition synced_task : obj :=
  {[ "id" := VStr "task-2"; "projectId" := VStr "2";
     "title" := VStr "Submit final report";
     "status" := VStr "pending";
     "needsSync" := VBool false; "syncStatus" := VStr "synced" ]}.

Definition pending_evidence : obj :=
  {[ "id" := VStr "evidence-1"; "taskId" := VStr "task-1";
     "type" := VStr "photo"; "fileName" := VStr "project-screenshot.jpg";
     "needsSync" := VBool true; "syncStatus" := VStr "pending" ]}.

Definition database : DB :=
  {| tasks := {[ "task-1" := pending_task; "task-2" := synced_task ]};
     evidence := {[ "evidence-1" := pending_evidence ]} |}.

Definition task_list : Store := [pending_task; synced_task].

(** A database that holds tasks and no evidence. *)
Definition tasks_only : DB :=
  {| tasks := {[ "task-1" := pending_task; "task-2" := synced_task ]};
     evidence := ∅ |}.

Definition screen (connected : bool) : Screen :=
  {| project_id := "1";
     screen_tasks := [pending_task];
     newTask := {| title := "Review code changes"; description := "";
                   dueDate := "" |};
     isConnected := connected;
     selectedTaskId := Some "task-1";
     db := database |}.

Definition photo : UploadedFile :=
  {| name := "code-review.png"; uri := "/storage/photos/code.png";
     type := "image/png" |}.

Definition completed : obj := {[ "status" := VStr "completed" ]}.

Definition marked_synced : obj :=
  {[ "syncStatus" := VStr "synced"; "needsSync" := VBool false ]}.

Definition marked_failed : obj := {[ "syncStatus" := VStr "failed" ]}.

(** A task created and a pending task toggled while the device is
    online. *)
Definition task_added_online :=
  handleAddTask (H := runtime) (screen true) world.

Definition task_toggled_online :=
  handleToggleComplete "task-1" (screen true) world.

(** Evidence attached while the device is online. *)
Definition evidence_added_online :=
  handleFileSelect photo (screen true) world.

(** A synced task completed through [patch] and through [updateTask]. *)
Definition patch_completed :=
  patch (H := runtime) defaults accept_all (IdStr "task-2") completed
    task_list world.

Definition update_completed := updateTask "task-2" completed database world.

(** The sync status of an evidence record updated. *)
Definition evidence_marked_synced :=
  updateEvidence "evidence-1" marked_synced database world.

(** [create] called with the identifier of a stored record. *)
Definition create_again :=
  create (H := runtime) defaults accept_all (priced "a" 5) catalogue world.

(** [create] called with an identifier that is not in use, and the record
    it stores. *)
Definition created :=
  create (H := runtime) defaults accept_all (priced "zz" 5) catalogue world.

Definition created_record : obj :=
  <["updatedAt" := VStr "1001"]>
    (<["createdAt" := VStr "1000"]> (priced "zz" 5)).

Definition has_price (r : obj) : Prop := truthy (r !! "price") = true.

(** A user collection and a new user. *)
Definition any_email (_ : value) : bool := true.

Definition users_validate : Store → obj → Validation :=
  UserStorage.validate (H := runtime) any_email "TypeError".

Definition alice : obj :=
  {[ "id" := VStr "u1"; "username" := VStr "alice";
     "email" := VStr "alice@example.org" ]}.

Definition users : Store := [alice].

Definition bea : obj :=
  {[ "id" := VStr "u2"; "username" := VStr "bea";
     "email" := VStr "bea@example.org" ]}.

Definition team : Store := [alice; bea].

Definition bob : obj :=
  {[ "username" := VStr "bob"; "email" := VStr "bob@example.org" ]}.

Definition bob_created :=
  create (H := runtime) UserStorage.config users_validate bob users world.

Definition bob_record : obj :=
  <["updatedAt" := VStr "1002"]>
    (<["createdAt" := VStr "1001"]> (<["id" := VStr "1000_r0"]> bob)).

End Samples.

(* ================================================================== *)
(** * Properties of the JavaScript fragment *)
(* ================================================================== *)
Module JsFacts.
Import Js.

Lemma sort_insert_perm {A} (cmp : A → A → Z) x l :
  Samples.sort_insert cmp x l ≡ₚ x :: l.
Proof.
  induction l as [|y l IH]; simpl; [done|].
  destruct (0 <? cmp x y); [|done].
  rewrite IH. apply Permutation_swap.
Qed.

Lemma insertion_sort_perm {A} (cmp : A → A → Z) l :
  Samples.insertion_sort cmp l ≡ₚ l.
Proof.
  induction l as [|x l IH]; simpl; [done|].
  fold (Samples.insertion_sort cmp l). rewrite sort_insert_perm.
  by rewrite IH.
Qed.

(** ** Consistent comparators *)

Section Consistent.
Variable cmp : obj → obj → Z.
Variable l : list obj.
Hypothesis Hc : consistent cmp l.

Lemma consistent_flip a b :
  a ∈ l → b ∈ l →
  (cmp a b < 0 → 0 < cmp b a) ∧ (0 < cmp a b → cmp b a < 0)
  ∧ (cmp a b = 0 → cmp b a = 0).
Proof.
  intros Ha Hb.
  pose proof (Hc a b a Ha Hb Ha). pose proof (Hc b a b Hb Ha Hb). lia.
Qed.

Lemma consistent_le_trans x y z :
  x ∈ l → y ∈ l → z ∈ l →
  ¬ cmp y x < 0 → ¬ cmp z y < 0 → ¬ cmp z x < 0.
Proof.
  intros Hx Hy Hz.
  pose proof (consistent_flip z y Hz Hy).
  pose proof (consistent_flip y x Hy Hx).
  pose proof (Hc z y x Hz Hy Hx). pose proof (Hc y z x Hy Hz Hx).
  pose proof (Hc z x y Hz Hx Hy). lia.
Qed.

Lemma consistent_class x a y :
  x ∈ l → a ∈ l → y ∈ l →
  cmp x a = 0 → 0 < cmp a y → cmp x y ≠ 0.
Proof.
  intros Hx Ha Hy.
  pose proof (consistent_flip x a Hx Ha).
  pose proof (Hc a x y Ha Hx Hy). lia.
Qed.

Lemma sort_insert_orders x s :
  x ∈ l → (∀ y, y ∈ s → y ∈ l) →
  StronglySorted (λ a b, ¬ cmp b a < 0) s →
  StronglySorted (λ a b, ¬ cmp b a < 0) (Samples.sort_insert cmp x s).
Proof.
  intros Hx Hs Hsorted.
  induction Hsorted as [|y s Hsorted IH Hy]; simpl.
  - repeat constructor.
  - assert (Hyl : y ∈ l) by (apply Hs; by left).
    assert (Hsl : ∀ z, z ∈ s → z ∈ l) by (intros z Hz; apply Hs; by right).
    destruct (0 <? cmp x y) eqn:E.
    + apply Z.ltb_lt in E. constructor; [by apply IH|].
      rewrite sort_insert_perm. constructor; [lia|done].
    + apply Z.ltb_ge in E. constructor; [by constructor|].
      assert (Hxy : ¬ cmp y x < 0).
      { pose proof (consistent_flip y x Hyl Hx). lia. }
      constructor; [done|].
      rewrite Forall_forall in Hy |- *. intros z Hz.
      apply (consistent_le_trans x y z); auto.
Qed.

Lemma insertion_sort_orders (s : list obj) :
  (∀ y, y ∈ s → y ∈ l) →
  StronglySorted (λ a b, ¬ cmp b a < 0) (Samples.insertion_sort cmp s).
Proof.
  induction s as [|x s IH]; intros Hs; simpl; [constructor|].
  fold (Samples.insertion_sort cmp s). apply sort_insert_orders.
  - apply Hs. by left.
  - intros y Hy. rewrite insertion_sort_perm in Hy. apply Hs. by right.
  - apply IH. intros y Hy. apply Hs. by right.
Qed.

Lemma sort_insert_stable x a s :
  x ∈ l → a ∈ l → (∀ y, y ∈ s → y ∈ l) →
  List.filter (λ y, cmp x y =? 0) (Samples.sort_insert cmp a s)
  = List.filter (λ y, cmp x y =? 0) (a :: s).
Proof.
  intros Hx Ha. induction s as [|y s IH]; intros Hs; [done|].
  assert (Hyl : y ∈ l) by (apply Hs; by left).
  assert (Hsl : ∀ z, z ∈ s → z ∈ l) by (intros z Hz; apply Hs; by right).
  cbn [Samples.sort_insert]. destruct (0 <? cmp a y) eqn:E; [|done].
  apply Z.ltb_lt in E. cbn [List.filter] in *. rewrite (IH Hsl).
  destruct (cmp x a =? 0) eqn:Ea; [|done].
  apply Z.eqb_eq in Ea.
  pose proof (consistent_class x a y Hx Ha Hyl Ea E) as Hne.
  apply Z.eqb_neq in Hne. by rewrite Hne.
Qed.

Lemma insertion_sort_stable x (s : list obj) :
  x ∈ l → (∀ y, y ∈ s → y ∈ l) →
  List.filter (λ y, cmp x y =? 0) (Samples.insertion_sort cmp s)
  = List.filter (λ y, cmp x y =? 0) s.
Proof.
  intros Hx. induction s as [|a s IH]; intros Hs; [done|].
  cbn [Samples.insertion_sort foldr]. fold (Samples.insertion_sort cmp s).
  rewrite sort_insert_stable.
  - cbn [List.filter]. rewrite IH; [done|]. intros y Hy. apply Hs. by right.
  - done.
  - apply Hs. by left.
  - intros y Hy. rewrite insertion_sort_perm in Hy. apply Hs. by right.
Qed.

End Consistent.

(** The sort of the sample runtime does what ECMAScript requires. *)
Lemma insertion_sort_lawful : @SortLaws Samples.runtime.
Proof.
  split; simpl.
  - intros cmp l. apply insertion_sort_perm.
  - intros cmp l Hc. by apply (insertion_sort_orders cmp l Hc).
  - intros cmp l x Hc Hx. by apply (insertion_sort_stable cmp l Hc).
Qed.

(** ** Strings, filters and slices *)



Lemma filter_reflect {A} (p : A → bool) (P : A → Prop)
    `{∀ x, Decision (P x)} (l : list A) :
  (∀ x, x ∈ l → p x = true ↔ P x) → List.filter p l = filter P l.
Proof.
  induction l as [|x l IH]; intros Hp; [done|].
  cbn [List.filter]. rewrite filter_cons, IH
    by (intros y Hy; apply Hp; by right).
  pose proof (Hp x ltac:(by left)) as Hx.
  destruct (decide (P x)) as [HP|HP].
  - apply Hx in HP. by rewrite HP.
  - destruct (p x); [|done]. by destruct HP; apply Hx.
Qed.

Lemma filter_nothing {A} (P : A → Prop) `{∀ x, Decision (P x)}
    (l : list A) :
  (∀ x, x ∈ l → ¬ P x) → filter P l = [].
Proof.
  induction l as [|x l IH]; intros Hl; [done|].
  rewrite filter_cons, IH by (intros y Hy; apply Hl; by right).
  destruct (decide (P x)) as [HP|]; [|done].
  by apply Hl in HP; [|left].
Qed.



Lemma slice_to_length {A} (k : Z) (l : list A) :
  Z.of_nat (length (slice_to k l)) =
  if k <? 0 then Z.max (Z.of_nat (length l) + k) 0
  else Z.min k (Z.of_nat (length l)).
Proof.
  unfold slice_to. rewrite length_take. destruct (k <? 0) eqn:E; lia.
Qed.

Lemma slice_from_length {A} (o : Z) (l : list A) :
  Z.of_nat (length (slice_from o l)) =
  if o <? 0 then Z.min (- o) (Z.of_nat (length l))
  else Z.max (Z.of_nat (length l) - o) 0.
Proof.
  unfold slice_from. rewrite length_drop. destruct (o <? 0) eqn:E; lia.
Qed.




Lemma findIndex_None {A} (p : A → bool) l :
  findIndex p l = None ↔ ∀ x, x ∈ l → p x = false.
Proof.
  induction l as [|y l IH]; simpl.
  - split; [|done]. intros _ x Hx. by apply elem_of_nil in Hx.
  - destruct (p y) eqn:E.
    + split; [done|]. intros Hall. specialize (Hall y). 
      rewrite E in Hall. discriminate Hall. by left.
    + rewrite fmap_None, IH. split.
      * intros Hall x [->|Hx]%elem_of_cons; auto.
      * intros Hall x Hx. apply Hall. by right.
Qed.

Lemma findIndex_Some {A} (p : A → bool) l i :
  findIndex p l = Some i ↔
  (∃ x, l !! i = Some x ∧ p x = true) ∧
  (∀ j y, (j < i)%nat → l !! j = Some y → p y = false).
Proof.
  revert i. induction l as [|y l IH]; intros i; simpl.
  - split; [done|]. by intros [(x & Hx & _) _].
  - destruct (p y) eqn:E.
    + split.
      * intros [= <-]. split; [by exists y|]. intros; lia.
      * intros [(x & Hx & Hp) Hfirst]. destruct i as [|i]; [done|].
        specialize (Hfirst 0%nat y). rewrite E in Hfirst.
        discriminate Hfirst; [lia|done].
    + rewrite fmap_Some. split.
      * intros (i' & Hi' & ->). apply IH in Hi' as [Hx Hfirst].
        split; [done|]. intros [|j] z Hj; simpl.
        -- by intros [= <-].
        -- apply Hfirst. lia.
      * intros [(x & Hx & Hp) Hfirst]. destruct i as [|i].
        -- simpl in Hx. congruence.
        -- exists i. split; [|done]. apply IH. split; [by exists x|].
           intros j z Hj Hz. apply (Hfirst (S j) z); [lia|done].
Qed.

End JsFacts.

(* ================================================================== *)
(** * Properties of BaseStorageService *)
(* ================================================================== *)
Module BaseStorageFacts.
Import Js JsFacts BaseStorage BaseStorageSpec.

Ltac run :=
  unfold returned, stored, world_after, readStorage, writeStorage,
    get_store, set_store, mbind, M_bind, mret, M_ret in *; simpl in *.

(** ** The [where] clause *)

Lemma strict_eq_same (a : option value) (v : value) :
  strict_eq a (Some v) = true ↔ same_value a v.
Proof.
  split.
  - destruct a as [[]|], v; simpl; try done;
      intros E; (split; [exact I|]); do 2 f_equal.
    + by apply eqb_prop.
    + by apply Z.eqb_eq.
    + by apply String.eqb_eq.
  - intros [Hp ->]. destruct v; simpl in *; try done.
    + apply eqb_reflx.
    + apply Z.eqb_refl.
    + apply String.eqb_refl.
Qed.

Lemma where_test_meets (w : Where) (r : obj) :
  where_test w r = true ↔ meets w r.
Proof.
  destruct w as [p|criteria]; simpl; [done|].
  unfold matches. rewrite forallb_forall, map_Forall_to_list, Forall_forall.
  split.
  - intros Hall [k v] Hin. apply strict_eq_same.
    apply (Hall (k, v)). by apply list_elem_of_In.
  - intros Hall [k v] Hin. apply strict_eq_same.
    apply (Hall (k, v)). by apply list_elem_of_In.
Qed.

(** ** The comparator of [applyFilters] *)

Section Comparator.
Context `{Runtime}.
Variable field : string.
Variable l : Store.

Section Keyed.
Context {K : Type} (key : obj → K) (leb : K → K → bool).
Hypothesis leb_total : ∀ x y, leb x y = true ∨ leb y x = true.
Hypothesis leb_trans :
  ∀ x y z, leb x y = true → leb y z = true → leb x z = true.
Hypothesis leb_antisym : ∀ x y, leb x y = true → leb y x = true → x = y.
Hypothesis keyed : ∀ a b, a ∈ l → b ∈ l →
  js_lt (a !! field) (b !! field) = negb (leb (key b) (key a)).



End Keyed.





End Comparator.

(** ** Queries *)

Section Queries.
Context `{Runtime}.


Lemma applyFilters_where (w : option Where) (data : Store) :
  match w with
  | Some w => List.filter (where_test w) data
  | None => data
  end = filter (selected w) data.
Proof.
  destruct w as [w|]; simpl.
  - apply filter_reflect. intros x _. apply where_test_meets.
  - induction data as [|x l IH]; [done|].
    rewrite filter_cons. simpl. by rewrite <- IH.
Qed.


(** C10: [count] returns the number of records that the [offset]/[limit]
    slice leaves of the records that meet the [where] clause, not the
    number of those records: with a limit [k] it is the smaller of [k] and
    the number of matching records, and with an offset [o] before it the
    smaller of [k] and what is left of them after the first [o]. *)
Theorem count_after_slice `{!SortLaws} (data : Store)
    (options : FilterOptions) (w : World) :
  let n := Z.of_nat (length (filter (selected (where_ options)) data)) in
  let counted := returned (count (Some options) data w) in
  counted = sliced_length n (offset options) (limit options)
  ∧ (∀ k, limit options = Some k → offset options = None → 0 ≤ k →
          counted = Z.min k n)
  ∧ (∀ o k, offset options = Some o → limit options = Some k →
            0 ≤ o → 0 ≤ k → counted = Z.min k (Z.max (n - o) 0))
  ∧ (∀ o, offset options = Some o → limit options = None → 0 ≤ o →
          counted = Z.max (n - o) 0)
  ∧ stored (count (Some options) data w) = data.
Proof.
  intros n counted.
  assert (Hc : counted = sliced_length n (offset options) (limit options)).
  { subst counted n. unfold count. run. unfold applyFilters; simpl.
    rewrite (applyFilters_where (where_ options)).
    set (m := filter (selected (where_ options)) data).
    set (s := match orderBy options with
              | Some f => if truthy_str f
                          then array_sort (compareBy f (order options)) m
                          else m
              | None => m
              end).
    assert (Hs : length s = length m).
    { subst s. destruct (orderBy options) as [f|]; [|done].
      destruct (truthy_str f); [|done].
      apply Permutation_length, sort_permutes. }
    unfold sliced_length.
    destruct (offset options) as [o|], (limit options) as [k|];
      rewrite ?slice_to_length, ?slice_from_length, ?Hs; done. }
  split; [done|]. rewrite Hc. unfold sliced_length.
  split; [|split; [|split; [|done]]].
  - intros k -> -> Hk.
    destruct (k <? 0) eqn:E; [apply Z.ltb_lt in E; lia|done].
  - intros o k -> -> Ho Hk.
    destruct (o <? 0) eqn:Eo; [apply Z.ltb_lt in Eo; lia|].
    destruct (k <? 0) eqn:E; [apply Z.ltb_lt in E; lia|done].
  - intros o -> -> Ho.
    destruct (o <? 0) eqn:Eo; [apply Z.ltb_lt in Eo; lia|done].
Qed.

End Queries.



(** Three records counted after an offset of one with a limit of five. *)
Lemma count_after_slice_witness :
  @SortLaws Samples.runtime
  ∧ returned (count (H := Samples.runtime)
                (Some {| where_ := None; orderBy := Some "price";
                         order := Some Desc; limit := Some 5;
                         offset := Some 1 |})
                Samples.catalogue Samples.world) = 2.
Proof.
  split; [exact insertion_sort_lawful|].
  destruct (@count_after_slice Samples.runtime insertion_sort_lawful
              Samples.catalogue
              {| where_ := None; orderBy := Some "price";
                 order := Some Desc; limit := Some 5; offset := Some 1 |}
              Samples.world) as (_ & _ & Hboth & _).
  by rewrite (Hboth 1 5 eq_refl eq_refl ltac:(lia) ltac:(lia)).
Defined.

(** ** Mutations *)

Section Mutations.
Context `{Runtime}.
Variable config : StorageConfig.
Variable validate : Store → obj → Validation.

Lemma addTimestamps_stored item isNew (data : Store) w :
  stored (addTimestamps config item isNew data w) = data.
Proof.
  unfold addTimestamps.
  destruct (timestampFields config) as [[[c|] [u|]]|]; simpl;
    repeat match goal with
           | |- context [if ?b then _ else _] => destruct b
           end; run; done.
Qed.

Lemma addTimestamps_other item isNew (data : Store) w k :
  k ∉ stamped_fields config isNew →
  returned (addTimestamps config item isNew data w) !! k = item !! k.
Proof.
  unfold addTimestamps, stamped_fields.
  destruct (timestampFields config) as [[[c|] [u|]]|]; simpl;
    repeat match goal with
           | |- context [if ?b then _ else _] => destruct b
           end; run; intros Hk;
    rewrite ?lookup_insert_ne; try done;
    intros ->; apply Hk; set_solver.
Qed.

Lemma addTimestamps_updatedAt item isNew (data : Store) w u :
  u ∈ stamped_fields config false →
  ∃ n, (ticks w ≤ n < ticks (world_after
                               (addTimestamps config item isNew data w)))%nat
       ∧ returned (addTimestamps config item isNew data w) !! u
         = Some (VStr (toISOString (clock w n))).
Proof.
  unfold addTimestamps, stamped_fields.
  destruct (timestampFields config) as [[[c|] [u'|]]|]; simpl;
    repeat match goal with
           | |- context [if ?b then _ else _] => destruct b
           end; run; intros Hu; try (by apply elem_of_nil in Hu);
    apply list_elem_of_singleton in Hu as ->;
    eexists; (split; [|apply lookup_insert_eq]); lia.
Qed.

Lemma prepare_stored item (data : Store) w :
  stored (prepare config item data w) = data.
Proof.
  unfold prepare, generateId.
  destruct (item !! getIdField config); run;
    match goal with
    | |- context [addTimestamps config ?a true ?s ?w'] =>
        pose proof (addTimestamps_stored a true s w') as Hs;
        destruct (addTimestamps config a true s w') as [[c s'] w'']
    end; done.
Qed.

Lemma addTimestamps_is_Some item isNew (data : Store) w k :
  is_Some (item !! k) →
  is_Some (returned (addTimestamps config item isNew data w) !! k).
Proof.
  unfold addTimestamps.
  destruct (timestampFields config) as [[[c|] [u|]]|]; simpl;
    repeat match goal with
           | |- context [if ?b then _ else _] => destruct b
           end; run; intros Hk;
    rewrite ?lookup_insert_is_Some'; tauto.
Qed.

Lemma prepare_other item (data : Store) w k :
  k ≠ getIdField config → k ∉ stamped_fields config true →
  returned (prepare config item data w) !! k = item !! k.
Proof.
  intros Hid Hk. unfold prepare, generateId.
  destruct (item !! getIdField config); run;
    match goal with
    | |- context [addTimestamps config ?a true ?s ?w'] =>
        pose proof (addTimestamps_other a true s w' k Hk) as Ho;
        destruct (addTimestamps config a true s w') as [[c s'] w'']
    end; run; rewrite Ho; [done|by rewrite lookup_insert_ne].
Qed.

Lemma prepare_has_id item (data : Store) w :
  is_Some (returned (prepare config item data w) !! getIdField config).
Proof.
  unfold prepare, generateId.
  destruct (item !! getIdField config) eqn:E; run;
    match goal with
    | |- context [addTimestamps config ?a true ?s ?w'] =>
        pose proof (addTimestamps_is_Some a true s w' (getIdField config))
          as Hs;
        destruct (addTimestamps config a true s w') as [[c s'] w'']
    end; run; apply Hs; [by rewrite E|by rewrite lookup_insert_eq].
Qed.

Lemma candidates_lookup items (data : Store) w i item :
  items !! i = Some item →
  ∃ w', candidates config items data w !! i
        = Some (returned (prepare config item data w')).
Proof.
  revert w i. induction items as [|x rest IH]; intros w [|i]; simpl;
    try done.
  - intros [= ->]. by exists w.
  - apply IH.
Qed.

Lemma candidates_length items (data : Store) w :
  length (candidates config items data w) = length items.
Proof.
  revert w. induction items as [|item rest IH]; intros w; simpl; [done|].
  by rewrite IH.
Qed.

Lemma createBulk_loop_cons (data : Store) item rest i newItems errors s w :
  createBulk_loop config validate data (getIdField config) (item :: rest)
    i newItems errors s w =
  let r := prepare config item s w in
  let c := returned r in
  match validate data c with
  | Valid =>
      createBulk_loop config validate data (getIdField config) rest (i + 1)
        (newItems ++ [c]) errors (stored r) (world_after r)
  | v =>
      createBulk_loop config validate data (getIdField config) rest (i + 1)
        newItems (errors ++ [{| index := i; message := reason v |}])
        (stored r) (world_after r)
  end.
Proof.
  simpl. unfold prepare, generateId.
  destruct (item !! getIdField config); run;
    destruct (addTimestamps config _ true s _) as [[c s'] w']; simpl;
    by destruct (validate data c) as [|[e|]|e].
Qed.

Lemma createBulk_loop_spec items :
  ∀ (data : Store) i newItems errors s w,
    let r := createBulk_loop config validate data (getIdField config)
               items i newItems errors s w in
    stored r = s
    ∧ returned r =
      (newItems ++ List.filter (passes validate data)
                     (candidates config items s w),
       errors ++ failures validate data (candidates config items s w) i).
Proof.
  induction items as [|item rest IH]; intros data i newItems errors s w.
  - simpl. run. by rewrite !app_nil_r.
  - cbv zeta. rewrite createBulk_loop_cons. cbv zeta.
    rewrite (prepare_stored item s w).
    cbn [candidates List.filter failures].
    set (c := returned (prepare config item s w)).
    set (w' := world_after (prepare config item s w)).
    assert (Hp : passes validate data c
                 = match validate data c with Valid => true | _ => false end)
      by done.
    rewrite Hp.
    destruct (validate data c) eqn:Ev;
      match goal with
      | |- context [createBulk_loop _ _ _ _ _ ?j ?n ?e s w'] =>
          destruct (IH data j n e s w') as [-> ->]
      end;
      (split; [done|]); f_equal; by rewrite <- app_assoc.
Qed.

Lemma failures_length (data : Store) cands i :
  (length (List.filter (passes validate data) cands)
   + length (failures validate data cands i) = length cands)%nat
  ∧ length (failures validate data cands i)
    = length (List.filter (λ c, negb (passes validate data c)) cands).
Proof.
  revert i. induction cands as [|c cands IH]; intros i; simpl; [done|].
  destruct (IH (i + 1)) as [IH1 IH2].
  destruct (passes validate data c); simpl; lia.
Qed.

Lemma failures_elem (data : Store) cands i e :
  e ∈ failures validate data cands i →
  i ≤ index e
  ∧ ∃ c, cands !! Z.to_nat (index e - i) = Some c
         ∧ passes validate data c = false
         ∧ message e = reason (validate data c).
Proof.
  revert i. induction cands as [|c cands IH]; intros i; simpl.
  - by intros ?%elem_of_nil.
  - assert (Hnext : e ∈ failures validate data cands (i + 1) →
              i ≤ index e
              ∧ ∃ c', (c :: cands) !! Z.to_nat (index e - i) = Some c'
                      ∧ passes validate data c' = false
                      ∧ message e = reason (validate data c')).
    { intros (Hi & c' & Hc' & Hrest)%IH. split; [lia|].
      exists c'. split; [|done].
      replace (Z.to_nat (index e - i))
        with (S (Z.to_nat (index e - (i + 1)))) by lia.
      done. }
    destruct (passes validate data c) eqn:Ep; [done|].
    intros [->|He]%elem_of_cons; [|by apply Hnext]. simpl.
    split; [lia|]. exists c. by rewrite Z.sub_diag.
Qed.

(** C2: [createBulk] appends to the stored collection exactly the records
    built from the items that pass [validate], returns them, and reports
    one error entry, with the index of the item and the reason, for each
    item that does not pass; the failures do not keep the other items
    from being persisted. *)
Theorem createBulk_partial_success (items : list obj) (data : Store)
    (w : World) :
  let cands := candidates config items data w in
  let persisted := List.filter (passes validate data) cands in
  let reported := failures validate data cands 0 in
  let r := createBulk config validate items data w in
  length cands = length items
  ∧ stored r = data ++ persisted
  ∧ bulk_data (returned r) = Some persisted
  ∧ default [] (bulk_errors (returned r)) = reported
  ∧ (length persisted + length reported = length items)%nat
  ∧ length reported
    = length (List.filter (λ c, negb (passes validate data c)) cands)
  ∧ (∀ e, e ∈ reported →
      0 ≤ index e
      ∧ ∃ c, cands !! Z.to_nat (index e) = Some c
             ∧ passes validate data c = false
             ∧ message e = reason (validate data c))
  ∧ (∀ i item, items !! i = Some item →
      ∃ c, cands !! i = Some c
           ∧ is_Some (c !! getIdField config)
           ∧ ∀ k, k ≠ getIdField config →
                  k ∉ stamped_fields config true → c !! k = item !! k).
Proof.
  intros cands persisted reported r.
  pose proof (createBulk_loop_spec items data 0 [] [] data w) as [Hs Hr].
  cbv zeta in Hs, Hr. simpl in Hr. fold cands in Hr.
  fold persisted reported in Hr.
  assert (Hrun : stored r = data ++ persisted
                 ∧ bulk_data (returned r) = Some persisted
                 ∧ default [] (bulk_errors (returned r)) = reported).
  { subst r. unfold createBulk. run.
    destruct (createBulk_loop config validate data (getIdField config)
                items 0 [] [] data w) as [[[newItems errors] s] w'].
    simpl in Hs, Hr. injection Hr as -> ->. subst s.
    destruct persisted as [|c l], reported as [|e l']; simpl;
      rewrite ?app_nil_r; done. }
  destruct Hrun as (Hst & Hdata & Herr).
  destruct (failures_length data cands 0) as [Hlen Hneg].
  pose proof (candidates_length items data w) as Hc. fold cands in Hc.
  split; [exact Hc|]. split; [exact Hst|]. split; [exact Hdata|].
  split; [exact Herr|]. split; [rewrite <- Hc; exact Hlen|].
  split; [exact Hneg|]. split.
  - intros e (Hi & c & Hc' & Hrest)%failures_elem.
    rewrite Z.sub_0_r in Hc'. split; [done|]. by exists c.
  - intros i item [w' Hi]%(candidates_lookup items data w).
    eexists. split; [exact Hi|]. split; [apply prepare_has_id|].
    intros k Hk Hstamp. by apply prepare_other.
Qed.

(** ** Replacement and merge *)

Lemma put_run (id : Id) (item : obj) (data : Store) w :
  put config validate id item data w =
  match findIndex (has_id (getIdField config) id) data with
  | None => (notOk (Some "Item not found"), data, w)
  | Some index =>
      let r := replacement config id item data w in
      match validate data (returned r) with
      | Valid => (ok (returned r), <[index := returned r]> data,
                  world_after r)
      | Invalid e => (notOk e, data, world_after r)
      | Throws e => (notOk (Some e), data, world_after r)
      end
  end.
Proof.
  unfold put, replacement. run.
  destruct (findIndex _ data) as [index|]; [|done].
  match goal with
  | |- context [addTimestamps config ?a false data w] =>
      pose proof (addTimestamps_stored a false data w) as Hs;
      destruct (addTimestamps config a false data w) as [[c s'] w']
  end.
  run. subst s'. by destruct (validate data c).
Qed.

Lemma patch_run (id : Id) (updates : obj) (data : Store) w :
  patch config validate id updates data w =
  match findIndex (has_id (getIdField config) id) data with
  | None => (notOk (Some "Item not found"), data, w)
  | Some index =>
      let r := replacement config id
                 (updates ∪ default ∅ (data !! index)) data w in
      match validate data (returned r) with
      | Valid => (ok (returned r), <[index := returned r]> data,
                  world_after r)
      | Invalid e => (notOk e, data, world_after r)
      | Throws e => (notOk (Some e), data, world_after r)
      end
  end.
Proof.
  unfold patch, replacement. run.
  destruct (findIndex _ data) as [index|]; [|done].
  match goal with
  | |- context [addTimestamps config ?a false data w] =>
      pose proof (addTimestamps_stored a false data w) as Hs;
      destruct (addTimestamps config a false data w) as [[c s'] w']
  end.
  run. subst s'. by destruct (validate data c).
Qed.

Lemma replacement_id (id : Id) (item : obj) (data : Store) w :
  getIdField config ∉ stamped_fields config false →
  returned (replacement config id item data w) !! getIdField config
  = Some (id_value id).
Proof.
  intros Hid. unfold replacement.
  rewrite addTimestamps_other by done. apply lookup_insert_eq.
Qed.

Lemma replacement_other (id : Id) (item : obj) (data : Store) w k :
  k ≠ getIdField config → k ∉ stamped_fields config false →
  returned (replacement config id item data w) !! k = item !! k.
Proof.
  intros Hk Hs. unfold replacement.
  rewrite addTimestamps_other by done. by apply lookup_insert_ne.
Qed.

Lemma absent_findIndex (id : Id) (data : Store) :
  absent config id data ↔
  findIndex (has_id (getIdField config) id) data = None.
Proof. symmetry. apply findIndex_None. Qed.

Lemma first_at_findIndex (id : Id) (data : Store) index old :
  first_at config id data index old ↔
  findIndex (has_id (getIdField config) id) data = Some index
  ∧ data !! index = Some old.
Proof.
  rewrite findIndex_Some. unfold first_at. split.
  - intros (Hold & Hid & Hfirst). split; [|done]. split; [by exists old|done].
  - intros [[(x & Hx & Hp) Hfirst] Hold]. by simplify_eq.
Qed.



(** ** Deletion *)

Lemma filter_filter_same {A} (p : A → bool) (l : list A) :
  List.filter p (List.filter p l) = List.filter p l.
Proof.
  induction l as [|x l IH]; simpl; [done|].
  destruct (p x) eqn:E; simpl; rewrite ?E, IH; done.
Qed.

Lemma filter_none {A} (p : A → bool) (l : list A) :
  List.filter p (List.filter (λ x, negb (p x)) l) = [].
Proof.
  induction l as [|x l IH]; simpl; [done|].
  destruct (p x) eqn:E; simpl; rewrite ?E; done.
Qed.

Lemma has_id_eq (field : string) (id : Id) (item : obj) :
  has_id field id item = true ↔ item !! field = Some (id_value id).
Proof.
  unfold has_id. split.
  - destruct (item !! field) as [[]|], id; simpl; try done.
    + by intros ->%Z.eqb_eq.
    + by intros ->%String.eqb_eq.
  - intros ->. destruct id; simpl.
    + apply String.eqb_refl.
    + apply Z.eqb_refl.
Qed.

Lemma includes_listed (ids : list Id) (item : obj) :
  includes ids (item !! getIdField config) = true ↔ listed config ids item.
Proof.
  unfold includes, listed. rewrite existsb_exists, Exists_exists.
  split; intros (id & Hin & Hid); exists id;
    (split; [by apply list_elem_of_In|]);
    by apply (has_id_eq (getIdField config) id item).
Qed.

Lemma filter_everything {A} (P : A → Prop) `{∀ x, Decision (P x)}
    (l : list A) :
  (∀ x, x ∈ l → P x) → filter P l = l.
Proof.
  induction l as [|x l IH]; intros Hl; [done|].
  rewrite filter_cons, IH by (intros y Hy; apply Hl; by right).
  destruct (decide (P x)) as [|HP]; [done|].
  destruct HP. apply Hl. by left.
Qed.

(** C8: [delete] of an identifier that no record has reports
    'Item not found' and changes nothing.  [deleteBulk] and [deleteWhere]
    succeed on every input and leave the records that are not listed, or
    do not meet the criteria, in their order; [deleteWhere] reports how many
    it removed; when nothing matches the collection is left as it is.
    [clear] succeeds and leaves nothing.  Repeating any of the three leaves
    the collection as the first call left it. *)
Theorem delete_contract (id : Id) (ids : list Id) (criteria : Where)
    (data : Store) (w w' : World) :
  ((∀ item, item ∈ data → item !! getIdField config ≠ Some (id_value id)) →
   returned (delete config id data w) = notOk (Some "Item not found")
   ∧ stored (delete config id data w) = data)
  ∧ (let r := deleteBulk config ids data w in
     bulk_success (returned r) = true
     ∧ bulk_errors (returned r) = None
     ∧ stored r = filter (λ item, ¬ listed config ids item) data
     ∧ ((∀ item, item ∈ data → ¬ listed config ids item) → stored r = data)
     ∧ bulk_success (returned (deleteBulk config ids (stored r) w')) = true
     ∧ stored (deleteBulk config ids (stored r) w') = stored r)
  ∧ (let r := deleteWhere criteria data w in
     returned r = ok (Z.of_nat (length (filter (meets criteria) data)))
     ∧ stored r = filter (λ item, ¬ meets criteria item) data
     ∧ ((∀ item, item ∈ data → ¬ meets criteria item) →
        returned r = ok 0 ∧ stored r = data)
     ∧ returned (deleteWhere criteria (stored r) w') = ok 0
     ∧ stored (deleteWhere criteria (stored r) w') = stored r)
  ∧ (let r := clear data w in
     returned r = ok true ∧ stored r = []
     ∧ returned (clear (stored r) w') = ok true
     ∧ stored (clear (stored r) w') = stored r).
Proof.
  split; [|split; [|split]].
  - intros Habs. unfold delete. run.
    assert (findIndex (has_id (getIdField config) id) data = None) as ->;
      [|done].
    apply findIndex_None. intros item Hin.
    destruct (has_id (getIdField config) id item) eqn:E; [|done].
    apply has_id_eq in E. by apply Habs in E.
  - assert (Hkept : List.filter
                      (λ item, negb (includes ids (item !! getIdField config)))
                      data
                    = filter (λ item, ¬ listed config ids item) data).
    { apply filter_reflect. intros item _.
      rewrite negb_true_iff, <- includes_listed.
      by destruct (includes ids (item !! getIdField config)). }
    unfold deleteBulk. run. split; [done|]. split; [done|].
    split; [done|]. split; [|split; [done|]].
    + intros Hnone. rewrite Hkept. by apply filter_everything.
    + apply filter_filter_same.
  - assert (Hkept : List.filter (λ item, negb (where_test criteria item))
                      data
                    = filter (λ item, ¬ meets criteria item) data).
    { apply filter_reflect. intros item _.
      rewrite negb_true_iff, <- where_test_meets.
      by destruct (where_test criteria item). }
    assert (Hgone : List.filter (where_test criteria) data
                    = filter (meets criteria) data).
    { apply filter_reflect. intros item _. apply where_test_meets. }
    unfold deleteWhere. run. rewrite Hgone.
    split; [done|]. split; [done|]. split; [|split].
    + intros Hnone. rewrite Hkept.
      rewrite (filter_nothing (meets criteria)) by done.
      by rewrite filter_everything.
    + by rewrite filter_none.
    + apply filter_filter_same.
  - unfold clear. run. done.
Qed.

(** ** Identifiers *)

Lemma create_run (item : obj) (data : Store) w :
  create config validate item data w =
  let r := prepare config item data w in
  match validate data (returned r) with
  | Valid => (ok (returned r), data ++ [returned r], world_after r)
  | Invalid e => (notOk e, data, world_after r)
  | Throws e => (notOk (Some e), data, world_after r)
  end.
Proof.
  unfold create, prepare, generateId.
  destruct (item !! getIdField config); run;
    match goal with
    | |- context [addTimestamps config ?a true data ?w'] =>
        pose proof (addTimestamps_stored a true data w') as Hs;
        destruct (addTimestamps config a true data w') as [[c s'] w'']
    end; run; subst s'; by destruct (validate data c).
Qed.

Lemma ids_replace (id : Id) (data : Store) index old c :
  first_at config id data index old →
  c !! getIdField config = Some (id_value id) →
  ids config (<[index := c]> data) = ids config data.
Proof.
  intros (Hold & Hid%has_id_eq & _) Hc. unfold ids.
  rewrite list_fmap_insert. apply list_insert_id.
  rewrite list_lookup_fmap, Hold. simpl. congruence.
Qed.

(** C6, as the code has it: [put] and [patch] leave the identifier of
    every stored record as it is, and [create] appends at most one record;
    the identifiers stay distinct when the identifier of the appended
    record, supplied by the caller or generated, is not yet in use. *)
Theorem ids_under_mutation (id : Id) (item updates : obj) (data : Store)
    (w : World) :
  getIdField config ∉ stamped_fields config false →
  ids config (stored (put config validate id item data w)) = ids config data
  ∧ ids config (stored (patch config validate id updates data w))
    = ids config data
  ∧ (let r := create config validate item data w in
     (stored r = data
      ∨ ∃ newItem, BaseStorage.data (returned r) = Some newItem
                   ∧ stored r = data ++ [newItem])
     ∧ (NoDup (ids config data) →
        (∀ newItem, BaseStorage.data (returned r) = Some newItem →
                    newItem !! getIdField config ∉ ids config data) →
        NoDup (ids config (stored r)))).
Proof.
  intros Hid. split; [|split].
  - rewrite put_run.
    destruct (findIndex _ data) as [index|] eqn:E; [|done]. cbv zeta.
    destruct (validate data _); try done. run.
    pose proof E as [(old & Hold & _) _]%findIndex_Some.
    apply (ids_replace id data index old).
    + by apply first_at_findIndex.
    + by apply replacement_id.
  - rewrite patch_run.
    destruct (findIndex _ data) as [index|] eqn:E; [|done]. cbv zeta.
    destruct (validate data _); try done. run.
    pose proof E as [(old & Hold & _) _]%findIndex_Some.
    apply (ids_replace id data index old).
    + by apply first_at_findIndex.
    + by apply replacement_id.
  - cbv zeta. rewrite create_run. cbv zeta.
    destruct (validate data _); run; (split; [|try done]).
    + right. eexists. done.
    + intros Hnd Hfresh. unfold ids. rewrite fmap_app. simpl.
      apply NoDup_app. split; [done|]. split.
      * intros x Hx [->|[]%elem_of_nil]%elem_of_cons.
        by apply (Hfresh _ eq_refl).
      * apply NoDup_singleton.
    + by left.
    + by left.
Qed.

End Mutations.

(** Three items, the second of which has no price. *)
Lemma createBulk_partial_success_witness :
  default [] (bulk_errors
                (returned (createBulk (H := Samples.runtime) Samples.defaults
                             Samples.needs_price Samples.batch
                             Samples.catalogue Samples.world)))
  = [{| index := 1; message := "price required" |}]
  ∧ length (stored (createBulk (H := Samples.runtime) Samples.defaults
                      Samples.needs_price Samples.batch Samples.catalogue
                      Samples.world)) = 5%nat.
Proof.
  destruct (@createBulk_partial_success Samples.runtime Samples.defaults
              Samples.needs_price Samples.batch Samples.catalogue
              Samples.world) as (_ & Hstored & _ & Herrors & _).
  rewrite Herrors, Hstored. split; by vm_compute.
Defined.

Lemma defaults_id_not_stamped :
  getIdField Samples.defaults ∉ stamped_fields Samples.defaults false.
Proof. simpl. by intros [=]%list_elem_of_singleton. Qed.

Lemma catalogue_absent :
  absent Samples.defaults (IdStr "zz") Samples.catalogue.
Proof.
  intros item Hin. unfold Samples.catalogue in Hin.
  repeat (apply elem_of_cons in Hin as [->|Hin]; [by vm_compute|]).
  by apply elem_of_nil in Hin.
Qed.


(** The record [b] removed from a collection of three by its identifier,
    next to an identifier that no record has, and by its price. *)
Lemma delete_contract_witness :
  stored (deleteBulk Samples.defaults [IdStr "b"; IdStr "zz"]
            Samples.catalogue Samples.world)
  = [Samples.priced "a" 30; Samples.priced "c" 20]
  ∧ returned (deleteWhere (WhereObj {[ "price" := VNum 10 ]})
                Samples.catalogue Samples.world) = ok 1
  ∧ stored (deleteWhere (WhereObj {[ "price" := VNum 10 ]})
              Samples.catalogue Samples.world)
    = [Samples.priced "a" 30; Samples.priced "c" 20].
Proof.
  destruct (delete_contract Samples.defaults (IdStr "zz")
              [IdStr "b"; IdStr "zz"] (WhereObj {[ "price" := VNum 10 ]})
              Samples.catalogue Samples.world Samples.world)
    as (_ & (_ & _ & Hbulk & _) & (Hcount & Hwhere & _) & _).
  rewrite Hbulk, Hcount, Hwhere. repeat split; by vm_compute.
Defined.

Lemma ids_under_mutation_witness :
  (getIdField Samples.defaults ∉ stamped_fields Samples.defaults false)
  ∧ ids Samples.defaults
      (stored (put (H := Samples.runtime) Samples.defaults
                 Samples.accept_all (IdStr "b") (Samples.priced "x" 1)
                 Samples.catalogue Samples.world))
    = ids Samples.defaults Samples.catalogue.
Proof.
  split; [exact defaults_id_not_stamped|].
  destruct (@ids_under_mutation Samples.runtime Samples.defaults
              Samples.accept_all (IdStr "b") (Samples.priced "x" 1) ∅
              Samples.catalogue Samples.world defaults_id_not_stamped)
    as [Hput _].
  exact Hput.
Defined.

(** C6 fails as stated: [create] with the identifier of a stored record
    succeeds and leaves two records with that identifier. *)
Lemma create_duplicates_id :
  NoDup (ids Samples.defaults Samples.catalogue)
  ∧ success (returned Samples.create_again) = true
  ∧ ¬ NoDup (ids Samples.defaults (stored Samples.create_again)).
Proof.
  split; [|split].
  - vm_compute.
    repeat (apply NoDup_cons; split;
            [rewrite ?not_elem_of_cons, ?elem_of_nil; naive_solver|]).
    apply NoDup_nil_2.
  - by vm_compute.
  - vm_compute. intros [Hnotin _]%NoDup_cons. apply Hnotin.
    do 2 (apply elem_of_cons; right). apply elem_of_cons. by left.
Qed.

End BaseStorageFacts.

(* ================================================================== *)
(** * Properties of the web StorageService *)
(* ================================================================== *)
Module WebStorageFacts.
Import Js JsFacts WebStorage SyncSpec.

Ltac steps :=
  unfold returned, stored, world_after, get_store, set_store, date_now,
    mbind, M_bind, mret, M_ret in *;
  cbv beta iota zeta in *; cbn [fst snd] in *.

Lemma in_key_order_elem (s : gmap string obj) (r : obj) :
  r ∈ in_key_order s ↔ ∃ key, s !! key = Some r.
Proof.
  unfold in_key_order. rewrite list_elem_of_fmap. split.
  - intros ([key r'] & -> & Hin).
    rewrite merge_sort_Permutation in Hin.
    apply elem_of_map_to_list in Hin. by exists key.
  - intros [key Hkey]. exists (key, r). split; [done|].
    rewrite merge_sort_Permutation. by apply elem_of_map_to_list.
Qed.

Lemma strict_eq_str (a : option value) (s : string) :
  strict_eq a (Some (VStr s)) = true ↔ a = Some (VStr s).
Proof.
  split.
  - destruct a as [[]|]; simpl; try done. by intros ->%String.eqb_eq.
  - intros ->. simpl. apply String.eqb_refl.
Qed.

Lemma needsSyncing_dirty (r : obj) :
  flag_typed r → needsSyncing r = true ↔ dirty r.
Proof.
  unfold flag_typed, needsSyncing, dirty. intros Ht.
  rewrite !orb_true_iff, !strict_eq_str.
  destruct (r !! "needsSync") as [[| [] | | | | |]|]; simpl; try done;
    intuition congruence.
Qed.

Lemma clean_not_needsSyncing (r : obj) :
  r !! "needsSync" = Some (VBool false) →
  r !! "syncStatus" = Some (VStr "synced") →
  needsSyncing r = false.
Proof. unfold needsSyncing. by intros -> ->. Qed.

(** C5: [getItemsNeedingSync] returns exactly the stored tasks and evidence
    that are dirty, by a scan that leaves the stores as they are; a record
    whose [needsSync] is false and whose [syncStatus] is synced is not
    selected. *)
Theorem getItemsNeedingSync_dirty_set (db : DB) (w : World) :
  (∀ storeName r, record_of db storeName r → flag_typed r) →
  let items := returned (getItemsNeedingSync db w) in
  (∀ r, r ∈ pendingTasks items ↔ record_of db TASKS r ∧ dirty r)
  ∧ (∀ r, r ∈ pendingEvidence items ↔ record_of db EVIDENCE r ∧ dirty r)
  ∧ (∀ r, r !! "needsSync" = Some (VBool false) →
          r !! "syncStatus" = Some (VStr "synced") →
          (r ∉ pendingTasks items) ∧ (r ∉ pendingEvidence items))
  ∧ stored (getItemsNeedingSync db w) = db.
Proof.
  intros Htyped items. subst items.
  unfold getItemsNeedingSync, getTasks, getAllEvidence, dbHelper_getAll.
  steps. cbn [pendingTasks pendingEvidence objectStore].
  assert (Hsel : ∀ storeName r,
            r ∈ List.filter needsSyncing
                  (in_key_order (objectStore db storeName))
            ↔ record_of db storeName r ∧ dirty r).
  { intros storeName r.
    rewrite list_elem_of_In, filter_In, <- list_elem_of_In.
    rewrite in_key_order_elem. fold (record_of db storeName r).
    split; intros [Hrec Hd]; (split; [done|]);
      by apply (needsSyncing_dirty r (Htyped storeName r Hrec)). }
  split; [apply (Hsel TASKS)|]. split; [apply (Hsel EVIDENCE)|].
  split; [|done].
  intros r Hflag Hstatus.
  pose proof (clean_not_needsSyncing r Hflag Hstatus) as Hclean.
  split; rewrite list_elem_of_In, filter_In; intros [_ ?]; congruence.
Qed.

(** ** Writes *)

Lemma dbHelper_put_run (storeName : StoreName) (v : obj) (d : DB) w :
  dbHelper_put storeName v d w =
  (tt,
   match v !! "id" with
   | Some (VStr key) =>
       with_objectStore d storeName (<[key := v]> (objectStore d storeName))
   | _ => d
   end, w).
Proof.
  unfold dbHelper_put. steps. by destruct (v !! "id") as [[]|].
Qed.

Lemma updateTask_run (taskId : string) (updates : obj) (d : DB) w :
  updateTask taskId updates d w =
  match tasks d !! taskId with
  | Some task =>
      dbHelper_put TASKS
        (<["updatedAt" := VDate (clock w (ticks w))]> (updates ∪ task)) d
        {| clock := clock w; random := random w;
           ticks := S (ticks w); draws := draws w |}
  | None => (tt, d, w)
  end.
Proof.
  unfold updateTask, dbHelper_get. steps. cbn [objectStore].
  by destruct (tasks d !! taskId).
Qed.

Lemma updateEvidence_run (evidenceId : string) (updates : obj) (d : DB) w :
  updateEvidence evidenceId updates d w =
  match evidence d !! evidenceId with
  | Some e => dbHelper_put EVIDENCE (updates ∪ e) d w
  | None => (tt, d, w)
  end.
Proof.
  unfold updateEvidence, dbHelper_get. steps. cbn [objectStore].
  by destruct (evidence d !! evidenceId).
Qed.

Lemma record_of_put (storeName storeName' : StoreName) (v r : obj)
    (d : DB) w :
  record_of (stored (dbHelper_put storeName v d w)) storeName' r →
  r = v ∨ record_of d storeName' r.
Proof.
  rewrite dbHelper_put_run. unfold stored; cbn [fst snd].
  destruct (v !! "id") as [[| | |key| | |]|]; try (by right).
  intros [k Hk].
  destruct storeName, storeName'; cbn in Hk;
    try (right; by exists k);
    apply lookup_insert_Some in Hk as [[_ <-]|[_ Hk]];
    (by left) || (right; by exists k).
Qed.

Lemma put_consistent (storeName : StoreName) (v : obj) (d : DB) w :
  db_consistent d → sync_consistent v →
  db_consistent (stored (dbHelper_put storeName v d w)).
Proof.
  intros Hd Hv storeName' r [->|Hr]%record_of_put; [done|].
  by apply (Hd storeName').
Qed.

Lemma merged_lookup (updates old : obj) (field : string) :
  (updates ∪ old) !! field = merged_field updates old field.
Proof.
  unfold merged_field. destruct (updates !! field) as [v|] eqn:E.
  - by apply lookup_union_Some_l.
  - by rewrite lookup_union_r.
Qed.

Lemma merge_consistent (updates old : obj) :
  sync_consistent (updates ∪ old) ↔ update_consistent updates old.
Proof. unfold sync_consistent, update_consistent. by rewrite !merged_lookup. Qed.

Lemma stamped_consistent (r : obj) (t : value) :
  sync_consistent (<["updatedAt" := t]> r) ↔ sync_consistent r.
Proof.
  unfold sync_consistent. by rewrite !lookup_insert_ne.
Qed.

Lemma put_consistent_iff (storeName : StoreName) (v : obj) (key : string)
    (d : DB) w :
  db_consistent d → v !! "id" = Some (VStr key) →
  db_consistent (stored (dbHelper_put storeName v d w)) ↔ sync_consistent v.
Proof.
  intros Hd Hid. split; [|by apply put_consistent].
  intros Hafter. apply (Hafter storeName). exists key.
  rewrite dbHelper_put_run, Hid. unfold stored; cbn [fst snd].
  destruct storeName; cbn; apply lookup_insert_eq.
Qed.

Lemma updateTask_consistent (taskId : string) (updates : obj) (d : DB) w :
  db_consistent d →
  (tasks d !! taskId = None →
   db_consistent (stored (updateTask taskId updates d w)))
  ∧ ∀ task, tasks d !! taskId = Some task →
      (update_consistent updates task →
       db_consistent (stored (updateTask taskId updates d w)))
      ∧ ∀ key, merged_field updates task "id" = Some (VStr key) →
          db_consistent (stored (updateTask taskId updates d w)) →
          update_consistent updates task.
Proof.
  intros Hd. rewrite updateTask_run. split; [by intros ->|].
  intros task ->. split.
  - intros Hu. apply put_consistent; [done|].
    by apply stamped_consistent, merge_consistent.
  - intros key Hkey Hafter.
    apply merge_consistent, (stamped_consistent _ (VDate (clock w (ticks w)))).
    refine (proj1 (put_consistent_iff TASKS _ key d _ Hd _) Hafter).
    rewrite lookup_insert_ne by done. by rewrite merged_lookup.
Qed.

Lemma updateEvidence_consistent (evidenceId : string) (updates : obj)
    (d : DB) w :
  db_consistent d →
  (evidence d !! evidenceId = None →
   db_consistent (stored (updateEvidence evidenceId updates d w)))
  ∧ ∀ e, evidence d !! evidenceId = Some e →
      (update_consistent updates e →
       db_consistent (stored (updateEvidence evidenceId updates d w)))
      ∧ ∀ key, merged_field updates e "id" = Some (VStr key) →
          db_consistent (stored (updateEvidence evidenceId updates d w)) →
          update_consistent updates e.
Proof.
  intros Hd. rewrite updateEvidence_run. split; [by intros ->|].
  intros e ->. split.
  - intros Hu. apply put_consistent; [done|]. by apply merge_consistent.
  - intros key Hkey Hafter. apply merge_consistent.
    refine (proj1 (put_consistent_iff EVIDENCE _ key d _ Hd _) Hafter).
    by rewrite merged_lookup.
Qed.

Lemma stored_put (storeName : StoreName) (v : obj) (d : DB) w :
  stored (dbHelper_put storeName v d w) =
  match v !! "id" with
  | Some (VStr key) =>
      with_objectStore d storeName (<[key := v]> (objectStore d storeName))
  | _ => d
  end.
Proof. by rewrite dbHelper_put_run. Qed.

Lemma field_of_put (storeName : StoreName) (v : obj) (d : DB) w
    (key field : string) :
  v !! "id" = Some (VStr key) →
  field_of (objectStore (stored (dbHelper_put storeName v d w)) storeName)
    key field = v !! field.
Proof.
  intros Hid. rewrite stored_put, Hid. unfold field_of.
  destruct storeName; cbn [objectStore with_objectStore tasks evidence];
    by rewrite lookup_insert_eq.
Qed.

Lemma database_records (storeName : StoreName) (r : obj) :
  record_of Samples.database storeName r →
  r = Samples.pending_task ∨ r = Samples.synced_task
  ∨ r = Samples.pending_evidence.
Proof.
  intros [key Hkey]. destruct storeName; cbn in Hkey.
  - apply lookup_insert_Some in Hkey as [[_ <-]|[_ Hkey]]; [by left|].
    apply lookup_singleton_Some in Hkey as [_ <-]. right; by left.
  - apply lookup_singleton_Some in Hkey as [_ <-]. right; by right.
Qed.

Lemma database_typed (storeName : StoreName) (r : obj) :
  record_of Samples.database storeName r → flag_typed r.
Proof. by intros [->|[->| ->]]%database_records; vm_compute. Qed.

Lemma database_consistent : db_consistent Samples.database.
Proof.
  intros storeName r [->|[->| ->]]%database_records; by vm_compute.
Qed.

(** The synced task of the sample database is passed over. *)
Lemma getItemsNeedingSync_dirty_set_witness :
  (∀ storeName r, record_of Samples.database storeName r → flag_typed r)
  ∧ (Samples.synced_task
       ∉ pendingTasks (returned (getItemsNeedingSync Samples.database
                                   Samples.world))).
Proof.
  split; [exact database_typed|].
  destruct (getItemsNeedingSync_dirty_set Samples.database Samples.world
              database_typed) as (_ & _ & Hclean & _).
  by apply (Hclean Samples.synced_task).
Defined.

End WebStorageFacts.

(* ================================================================== *)
(** * Properties of the project detail screen *)
(* ================================================================== *)
Module ScreenFacts.
Import Js JsFacts WebStorage SyncSpec ProjectDetail WebStorageFacts.

Ltac screen_steps :=
  unfold storage, setTasks, setNewTask, loadTasks, addTask, addEvidence,
    getTasks in *;
  steps;
  cbn [db isConnected project_id screen_tasks newTask selectedTaskId] in *.

Lemma handleAddTask_consistent `{Runtime} (s : Screen) w :
  db_consistent (db s) → isConnected s = false →
  db_consistent (db (stored (handleAddTask s w))).
Proof.
  intros Hd Hoff. unfold handleAddTask. screen_steps.
  destruct (negb _); [done|].
  rewrite dbHelper_put_run. screen_steps.
  rewrite <- (stored_put TASKS _ (db s) w).
  apply put_consistent; [done|]. rewrite Hoff.
  intros Hflag. exfalso.
  destruct (truthy_str _); simplify_map_eq.
Qed.

Lemma handleAddTask_blank `{Runtime} (s : Screen) w :
  trim (title (newTask s)) = "" → db (stored (handleAddTask s w)) = db s.
Proof.
  intros Hblank. unfold handleAddTask. screen_steps. by rewrite Hblank.
Qed.

Lemma handleAddTask_flags `{Runtime} (s : Screen) w :
  trim (title (newTask s)) ≠ "" →
  ∃ task,
    record_of (db (stored (handleAddTask s w))) TASKS task
    ∧ task !! "needsSync" = Some (VBool (negb (isConnected s)))
    ∧ task !! "syncStatus" = None.
Proof.
  intros Hne%String.eqb_neq. unfold handleAddTask. screen_steps.
  unfold truthy_str. rewrite Hne. simpl.
  rewrite dbHelper_put_run. screen_steps.
  match goal with
  | |- context [match ?t !! "id" with _ => _ end] => set (task := t)
  end.
  assert (Hfields :
    task !! "id" = Some (VStr (pretty (clock w (ticks w))))
    ∧ task !! "needsSync" = Some (VBool (negb (isConnected s)))
    ∧ task !! "syncStatus" = None).
  { subst task. destruct (negb _); repeat split; by simplify_map_eq. }
  destruct Hfields as (Hid & Hflag & Hsync).
  exists task. rewrite Hid. split; [|done].
  exists (pretty (clock w (ticks w))). cbn. apply lookup_insert_eq.
Qed.

Lemma toggle_update_consistent (newStatus : string) (connected : bool)
    (task : obj) :
  update_consistent
    {[ "status" := VStr newStatus; "isOffline" := VBool (negb connected);
       "needsSync" := VBool (negb connected) ]} task
  ↔ connected = false ∨ task !! "syncStatus" = Some (VStr "synced").
Proof.
  unfold update_consistent, merged_field.
  assert (Hflag : ({[ "status" := VStr newStatus;
                      "isOffline" := VBool (negb connected);
                      "needsSync" := VBool (negb connected) ]} : obj)
                    !! "needsSync" = Some (VBool (negb connected)))
    by (by simplify_map_eq).
  assert (Hstatus : ({[ "status" := VStr newStatus;
                        "isOffline" := VBool (negb connected);
                        "needsSync" := VBool (negb connected) ]} : obj)
                      !! "syncStatus" = None)
    by (by simplify_map_eq).
  rewrite Hflag, Hstatus. destruct connected; simpl.
  - split; [by right; auto|]. by intros [?|?].
  - split; [by left|]. by intros _ [=].
Qed.

Lemma handleToggleComplete_db (taskId : string) (s : Screen) w :
  db (stored (handleToggleComplete taskId s w))
  = match find (has_task_id taskId) (screen_tasks s) with
    | None => db s
    | Some shown =>
        stored (updateTask taskId
                  {[ "status" :=
                       VStr (if strict_eq (shown !! "status")
                                   (Some (VStr "completed"))
                             then "pending" else "completed");
                     "isOffline" := VBool (negb (isConnected s));
                     "needsSync" := VBool (negb (isConnected s)) ]}
                  (db s) w)
    end.
Proof.
  unfold handleToggleComplete. screen_steps.
  destruct (find _ _) as [shown|]; [|done].
  match goal with
  | |- context [updateTask taskId ?u (db s) w] =>
      destruct (updateTask taskId u (db s) w) as [[a d] w']
  end.
  by screen_steps.
Qed.

Lemma handleFileSelect_consistent (file : UploadedFile) (s : Screen) w :
  db_consistent (db s) →
  isConnected s = false ∨ selectedTaskId s = None
  ∨ selectedTaskId s = Some "" →
  db_consistent (db (stored (handleFileSelect file s w))).
Proof.
  intros Hd Hoff. unfold handleFileSelect. screen_steps.
  destruct (selectedTaskId s) as [selected|]; [|done].
  destruct Hoff as [Hoff|[?|[= ->]]]; [|done|done].
  destruct (negb _); [done|].
  rewrite dbHelper_put_run. screen_steps.
  destruct (truthy_str (project_id s));
    unfold dbHelper_getByIndex, dbHelper_getAll; screen_steps;
    rewrite <- (stored_put EVIDENCE _ (db s) w);
    (apply put_consistent; [done|]); rewrite Hoff;
    intros Hflag; exfalso; simplify_map_eq.
Qed.

(** C1, as the code has it.  In a database where [needsSync == false]
    holds only with [syncStatus == synced]: the creation of a task keeps
    that exactly when the device is offline (or the title is blank and
    nothing is created), for the task is stored with [needsSync] set by the
    connectivity and without a [syncStatus]; the toggling of a stored task
    keeps it exactly when the device is offline or the task is synced; the
    attachment of evidence keeps it while the device is offline, or when
    no task is selected and nothing is stored; and
    [updateTask] and [updateEvidence] on a stored record keep it exactly
    when the update leaves the record with [needsSync == false] only
    together with [syncStatus == synced], and do nothing on a record that
    is not stored. *)
Theorem sync_consistency_by_operation `{Runtime} (s : Screen) (w : World)
    (taskId : string) (file : UploadedFile) (recordId : string)
    (updates : obj) :
  db_consistent (db s) →
  (db_consistent (db (stored (handleAddTask s w)))
   ↔ isConnected s = false ∨ trim (title (newTask s)) = "")
  ∧ ((isConnected s = false
      ∨ find (has_task_id taskId) (screen_tasks s) = None
      ∨ tasks (db s) !! taskId = None →
      db_consistent (db (stored (handleToggleComplete taskId s w))))
     ∧ ∀ shown task key,
         find (has_task_id taskId) (screen_tasks s) = Some shown →
         tasks (db s) !! taskId = Some task →
         task !! "id" = Some (VStr key) →
         db_consistent (db (stored (handleToggleComplete taskId s w)))
         ↔ isConnected s = false
           ∨ task !! "syncStatus" = Some (VStr "synced"))
  ∧ (isConnected s = false ∨ selectedTaskId s = None
     ∨ selectedTaskId s = Some "" →
     db_consistent (db (stored (handleFileSelect file s w))))
  ∧ ((tasks (db s) !! recordId = None →
      db_consistent (stored (updateTask recordId updates (db s) w)))
     ∧ ∀ task, tasks (db s) !! recordId = Some task →
         (update_consistent updates task →
          db_consistent (stored (updateTask recordId updates (db s) w)))
         ∧ ∀ key, merged_field updates task "id" = Some (VStr key) →
             db_consistent (stored (updateTask recordId updates (db s) w)) →
             update_consistent updates task)
  ∧ ((evidence (db s) !! recordId = None →
      db_consistent (stored (updateEvidence recordId updates (db s) w)))
     ∧ ∀ e, evidence (db s) !! recordId = Some e →
         (update_consistent updates e →
          db_consistent (stored (updateEvidence recordId updates (db s) w)))
         ∧ ∀ key, merged_field updates e "id" = Some (VStr key) →
             db_consistent
               (stored (updateEvidence recordId updates (db s) w)) →
             update_consistent updates e).
Proof.
  intros Hd.
  split; [|split; [|split; [by apply handleFileSelect_consistent|split]]].
  - split.
    + intros Hafter.
      destruct (decide (trim (title (newTask s)) = "")) as [|Hne];
        [by right|left].
      destruct (handleAddTask_flags s w Hne) as (task & Hrec & Hflag & Hno).
      destruct (isConnected s); [|done].
      specialize (Hafter TASKS task Hrec Hflag). congruence.
    + intros [Hoff|Hblank]; [by apply handleAddTask_consistent|].
      by rewrite handleAddTask_blank.
  - rewrite handleToggleComplete_db. split.
    + intros Hcase.
      destruct (find _ _) as [shown|] eqn:Eshown; [|done].
      match goal with
      | |- context [updateTask taskId ?u (db s) w] =>
          destruct (updateTask_consistent taskId u (db s) w Hd)
            as [Hnone Hsome]
      end.
      destruct (tasks (db s) !! taskId) as [task|] eqn:Etask; [|by auto].
      destruct Hcase as [Hoff|[?|?]]; [|done|done].
      apply (Hsome task eq_refl). apply toggle_update_consistent. by left.
    + intros shown task key -> Htask Hid.
      match goal with
      | |- context [updateTask taskId ?u (db s) w] =>
          destruct (updateTask_consistent taskId u (db s) w Hd)
            as [_ Hsome]
      end.
      destruct (Hsome task Htask) as [Hkeep Hback].
      rewrite <- toggle_update_consistent. split; [|done].
      apply (Hback key). unfold merged_field.
      by simplify_map_eq.
  - by apply updateTask_consistent.
  - by apply updateEvidence_consistent.
Qed.

Lemma marked_failed_consistent :
  update_consistent Samples.marked_failed Samples.pending_task.
Proof. intros Hflag. by vm_compute in Hflag. Qed.

Lemma completed_consistent :
  update_consistent Samples.completed Samples.synced_task.
Proof. intros _. reflexivity. Qed.

(** A task added on the offline screen over the sample database; the
    pending sample task, whose [needsSync] is true, marked as failed; and
    the synced sample task completed by an update that touches no sync
    field. *)
Lemma sync_consistency_by_operation_witness :
  db_consistent (db (Samples.screen false))
  ∧ db_consistent
      (db (stored (handleAddTask (H := Samples.runtime)
                     (Samples.screen false) Samples.world)))
  ∧ db_consistent
      (stored (updateTask "task-1" Samples.marked_failed Samples.database
                 Samples.world))
  ∧ db_consistent
      (stored (updateTask "task-2" Samples.completed Samples.database
                 Samples.world)).
Proof.
  split; [exact database_consistent|].
  destruct (@sync_consistency_by_operation Samples.runtime
              (Samples.screen false) Samples.world "task-1" Samples.photo
              "task-1" Samples.marked_failed database_consistent)
    as (Hadd & _ & _ & (_ & Hfailed) & _).
  destruct (@sync_consistency_by_operation Samples.runtime
              (Samples.screen false) Samples.world "task-1" Samples.photo
              "task-2" Samples.completed database_consistent)
    as (_ & _ & _ & (_ & Hneutral) & _).
  split; [apply Hadd; by left|]. split.
  - destruct (Hfailed Samples.pending_task eq_refl) as [Hkeep _].
    exact (Hkeep marked_failed_consistent).
  - destruct (Hneutral Samples.synced_task eq_refl) as [Hkeep _].
    exact (Hkeep completed_consistent).
Defined.

(** C1 fails as stated: a task created while the device is online is
    stored with [needsSync] false and without a [syncStatus], and a pending
    task toggled while the device is online is stored with [needsSync]
    false and its [syncStatus] still pending. *)
Lemma online_task_breaks_consistency :
  db_consistent (db (Samples.screen true))
  ∧ ¬ db_consistent (db (stored Samples.task_added_online))
  ∧ ¬ db_consistent (db (stored Samples.task_toggled_online)).
Proof.
  split; [exact database_consistent|]. split; intros Hc.
  - assert (Hflag : field_of (tasks (db (stored Samples.task_added_online)))
                      "1000" "needsSync" = Some (VBool false))
      by (vm_compute; reflexivity).
    assert (Hstatus : field_of
                        (tasks (db (stored Samples.task_added_online)))
                        "1000" "syncStatus" = None)
      by (vm_compute; reflexivity).
    unfold field_of in Hflag, Hstatus.
    destruct (tasks (db (stored Samples.task_added_online)) !! "1000")
      as [t|] eqn:Ht; [|discriminate Hflag].
    cbn [mbind option_bind] in Hflag, Hstatus.
    pose proof (Hc TASKS t (ex_intro _ "1000" Ht) Hflag). congruence.
  - assert (Hflag : field_of
                      (tasks (db (stored Samples.task_toggled_online)))
                      "task-1" "needsSync" = Some (VBool false))
      by (vm_compute; reflexivity).
    assert (Hstatus : field_of
                        (tasks (db (stored Samples.task_toggled_online)))
                        "task-1" "syncStatus" = Some (VStr "pending"))
      by (vm_compute; reflexivity).
    unfold field_of in Hflag, Hstatus.
    destruct (tasks (db (stored Samples.task_toggled_online)) !! "task-1")
      as [t|] eqn:Ht; [|discriminate Hflag].
    cbn [mbind option_bind] in Hflag, Hstatus.
    pose proof (Hc TASKS t (ex_intro _ "task-1" Ht) Hflag). congruence.
Qed.

(** Evidence attached on the project screen while the device is online is
    stored with [needsSync] false and [syncStatus] pending; the sync status
    screen stores its evidence with [needsSync] true. *)
Lemma online_evidence_breaks_consistency :
  db_consistent (db (Samples.screen true))
  ∧ ¬ db_consistent (db (stored Samples.evidence_added_online)).
Proof.
  split; [exact database_consistent|]. intros Hc.
  assert (Hflag : field_of
                    (evidence (db (stored Samples.evidence_added_online)))
                    "evidence-1000" "needsSync" = Some (VBool false))
    by (vm_compute; reflexivity).
  assert (Hstatus : field_of
                      (evidence (db (stored Samples.evidence_added_online)))
                      "evidence-1000" "syncStatus" = Some (VStr "pending"))
    by (vm_compute; reflexivity).
  unfold field_of in Hflag, Hstatus.
  destruct (evidence (db (stored Samples.evidence_added_online))
              !! "evidence-1000") as [e|] eqn:He; [|discriminate Hflag].
  cbn [mbind option_bind] in Hflag, Hstatus.
  pose proof (Hc EVIDENCE e (ex_intro _ "evidence-1000" He) Hflag).
  congruence.
Qed.

End ScreenFacts.

(* ================================================================== *)
(** * Sync bookkeeping under local updates *)
(* ================================================================== *)
Module SyncFacts.
Import Js JsFacts BaseStorage BaseStorageSpec BaseStorageFacts.
Import WebStorage SyncSpec WebStorageFacts ProjectDetail ScreenFacts.

Section Updates.
Context `{Runtime}.
Variable config : StorageConfig.
Variable validate : Store → obj → Validation.

Lemma patch_stored_field (id : Id) (updates old : obj) (data : Store)
    (index : nat) (w : World) (field : string) :
  first_at config id data index old →
  validate data (returned (replacement config id (updates ∪ old) data w))
  = Valid →
  (stored (patch config validate id updates data w) !! index)
    ≫= (λ r : obj, r !! field)
  = returned (replacement config id (updates ∪ old) data w) !! field.
Proof.
  intros Hfirst Hvalid. rewrite patch_run.
  pose proof Hfirst as [Hindex Hold]%first_at_findIndex.
  rewrite Hindex, Hold. cbv zeta. simpl default. rewrite Hvalid.
  unfold stored at 1; cbn [fst snd].
  rewrite list_lookup_insert_eq; [done|].
  by apply lookup_lt_Some in Hold.
Qed.

Lemma put_stored_field (id : Id) (item old : obj) (data : Store)
    (index : nat) (w : World) (field : string) :
  first_at config id data index old →
  validate data (returned (replacement config id item data w)) = Valid →
  (stored (put config validate id item data w) !! index)
    ≫= (λ r : obj, r !! field)
  = returned (replacement config id item data w) !! field.
Proof.
  intros Hfirst Hvalid. rewrite put_run.
  pose proof Hfirst as [Hindex Hold]%first_at_findIndex.
  rewrite Hindex. cbv zeta. rewrite Hvalid.
  unfold stored at 1; cbn [fst snd].
  rewrite list_lookup_insert_eq; [done|].
  by apply lookup_lt_Some in Hold.
Qed.

Lemma updateTask_stored_field (taskId : string) (updates task : obj)
    (d : DB) (w : World) (field : string) :
  tasks d !! taskId = Some task →
  task !! "id" = Some (VStr taskId) → updates !! "id" = None →
  field_of (tasks (stored (updateTask taskId updates d w))) taskId field
  = <["updatedAt" := VDate (clock w (ticks w))]> (updates ∪ task) !! field.
Proof.
  intros Htask Hid Hnoid. rewrite updateTask_run, Htask.
  apply (field_of_put TASKS).
  rewrite lookup_insert_ne by done.
  by rewrite lookup_union_r.
Qed.

Lemma updateEvidence_stored_field (evidenceId : string) (updates e : obj)
    (d : DB) (w : World) (field : string) :
  evidence d !! evidenceId = Some e →
  e !! "id" = Some (VStr evidenceId) → updates !! "id" = None →
  field_of (evidence (stored (updateEvidence evidenceId updates d w)))
    evidenceId field
  = (updates ∪ e) !! field.
Proof.
  intros He Hid Hnoid. rewrite updateEvidence_run, He.
  apply (field_of_put EVIDENCE). by rewrite lookup_union_r.
Qed.

Lemma handleToggleComplete_needsSync (taskId : string) (s : Screen)
    (shown task : obj) (w : World) :
  find (has_task_id taskId) (screen_tasks s) = Some shown →
  tasks (db s) !! taskId = Some task →
  task !! "id" = Some (VStr taskId) →
  field_of (tasks (db (stored (handleToggleComplete taskId s w)))) taskId
    "needsSync"
  = Some (VBool (negb (isConnected s))).
Proof.
  intros Hshown Htask Hid. unfold handleToggleComplete. screen_steps.
  rewrite Hshown.
  match goal with
  | |- context [updateTask taskId ?u (db s) w] =>
      pose proof (updateTask_stored_field taskId u task (db s) w
                    "needsSync" Htask Hid ltac:(by simplify_map_eq))
        as Hu;
      destruct (updateTask taskId u (db s) w) as [[a d] w']
  end.
  screen_steps. rewrite Hu. by simplify_map_eq.
Qed.

(** C4, as the code has it: [patch] and [updateTask] store the shallow
    merge of the update into the record, so the stored [needsSync] is the
    one the update carries and otherwise the one stored before; a synced
    record becomes dirty only through an update that sets
    [needsSync: true], as the one of [handleToggleComplete] does while the
    device is offline. *)
Theorem partial_update_merges_needsSync (id : Id) (taskId : string)
    (updates old task : obj) (data : Store) (index : nat) (d : DB)
    (w : World) :
  "needsSync" ≠ getIdField config →
  "needsSync" ∉ stamped_fields config false →
  first_at config id data index old →
  validate data (returned (replacement config id (updates ∪ old) data w))
  = Valid →
  tasks d !! taskId = Some task →
  task !! "id" = Some (VStr taskId) → updates !! "id" = None →
  (stored (patch config validate id updates data w) !! index)
    ≫= (λ r : obj, r !! "needsSync")
  = (updates ∪ old) !! "needsSync"
  ∧ field_of (tasks (stored (updateTask taskId updates d w))) taskId
      "needsSync"
    = (updates ∪ task) !! "needsSync"
  ∧ (updates !! "needsSync" = None →
     (updates ∪ old) !! "needsSync" = old !! "needsSync"
     ∧ (updates ∪ task) !! "needsSync" = task !! "needsSync")
  ∧ (∀ v, updates !! "needsSync" = Some v →
     (updates ∪ old) !! "needsSync" = Some v
     ∧ (updates ∪ task) !! "needsSync" = Some v)
  ∧ (∀ (s : Screen) (shown : obj),
     db s = d → find (has_task_id taskId) (screen_tasks s) = Some shown →
     field_of (tasks (db (stored (handleToggleComplete taskId s w)))) taskId
       "needsSync"
     = Some (VBool (negb (isConnected s)))).
Proof.
  intros Hnid Hnstamp Hfirst Hvalid Htask Hid Hnoid.
  split; [|split; [|split; [|split]]];
    [| | | |intros s shown <- Hshown;
            by apply (handleToggleComplete_needsSync taskId s shown task)].
  - rewrite (patch_stored_field id updates old data index w) by done.
    by apply replacement_other.
  - rewrite (updateTask_stored_field taskId updates task) by done.
    by rewrite lookup_insert_ne.
  - intros Hnone. by rewrite !lookup_union_r.
  - intros v Hv. split; by apply lookup_union_Some_l.
Qed.

(** C9, as the code has it: [put] and [patch], under a configuration with
    an [updatedAt] field, stamp the record they store with a clock reading
    taken during the call, and [updateTask] stamps the record it stores
    with the time of the call, whatever the update changes;
    [updateEvidence] stores the merge of the update into the record and
    does not read the clock. *)
Theorem updatedAt_refresh (id : Id) (item updates old task e : obj)
    (data : Store) (index : nat) (taskId evidenceId field key : string)
    (d : DB) (w : World) :
  (field ∈ stamped_fields config false →
   first_at config id data index old →
   validate data (returned (replacement config id item data w)) = Valid →
   ∃ n, (ticks w ≤ n
         < ticks (world_after (put config validate id item data w)))%nat
        ∧ (stored (put config validate id item data w) !! index)
            ≫= (λ r : obj, r !! field)
          = Some (VStr (toISOString (clock w n))))
  ∧ (field ∈ stamped_fields config false →
     first_at config id data index old →
     validate data (returned (replacement config id (updates ∪ old) data w))
     = Valid →
     ∃ n, (ticks w ≤ n
           < ticks (world_after (patch config validate id updates data w)))%nat
          ∧ (stored (patch config validate id updates data w) !! index)
              ≫= (λ r : obj, r !! field)
            = Some (VStr (toISOString (clock w n))))
  ∧ (tasks d !! taskId = Some task →
     merged_field updates task "id" = Some (VStr key) →
     field_of (tasks (stored (updateTask taskId updates d w))) key
       "updatedAt"
     = Some (VDate (clock w (ticks w))))
  ∧ (evidence d !! evidenceId = Some e →
     merged_field updates e "id" = Some (VStr key) →
     field_of (evidence (stored (updateEvidence evidenceId updates d w)))
       key "updatedAt"
     = merged_field updates e "updatedAt"
     ∧ world_after (updateEvidence evidenceId updates d w) = w).
Proof.
  split; [|split; [|split]].
  - intros Hfield Hfirst Hvput.
    rewrite (put_stored_field id item old data index w) by done.
    rewrite put_run.
    pose proof Hfirst as [-> _]%first_at_findIndex. cbv zeta.
    rewrite Hvput. unfold world_after at 1; cbn [snd].
    by apply addTimestamps_updatedAt.
  - intros Hfield Hfirst Hvpatch.
    rewrite (patch_stored_field id updates old data index w) by done.
    rewrite patch_run.
    pose proof Hfirst as [-> ->]%first_at_findIndex. cbv zeta.
    simpl default. rewrite Hvpatch. unfold world_after at 1; cbn [snd].
    by apply addTimestamps_updatedAt.
  - intros Htask Hkey. rewrite updateTask_run, Htask.
    etrans; [apply (field_of_put TASKS)|apply lookup_insert_eq].
    rewrite lookup_insert_ne by done. by rewrite merged_lookup.
  - intros He Hkey. rewrite updateEvidence_run, He. split.
    + etrans; [apply (field_of_put EVIDENCE)|apply merged_lookup].
      by rewrite merged_lookup.
    + by rewrite dbHelper_put_run.
Qed.

End Updates.

Lemma task_list_first :
  first_at Samples.defaults (IdStr "task-2") Samples.task_list 1
    Samples.synced_task.
Proof.
  apply first_at_findIndex. split; by vm_compute.
Qed.

Lemma needsSync_not_stamped :
  "needsSync" ∉ stamped_fields Samples.defaults false.
Proof. simpl. by intros [=]%list_elem_of_singleton. Qed.

(** The synced sample task completed by a partial update. *)
Lemma partial_update_merges_needsSync_witness :
  "needsSync" ≠ getIdField Samples.defaults
  ∧ ("needsSync" ∉ stamped_fields Samples.defaults false)
  ∧ first_at Samples.defaults (IdStr "task-2") Samples.task_list 1
      Samples.synced_task
  ∧ tasks Samples.database !! "task-2" = Some Samples.synced_task
  ∧ Samples.synced_task !! "id" = Some (VStr "task-2")
  ∧ Samples.completed !! "id" = None
  ∧ field_of (tasks (stored Samples.update_completed)) "task-2" "needsSync"
    = (Samples.completed ∪ Samples.synced_task) !! "needsSync".
Proof.
  split; [done|]. split; [exact needsSync_not_stamped|].
  split; [exact task_list_first|].
  split; [by vm_compute|]. split; [by vm_compute|]. split; [by vm_compute|].
  destruct (@partial_update_merges_needsSync Samples.runtime
              Samples.defaults Samples.accept_all (IdStr "task-2") "task-2"
              Samples.completed Samples.synced_task Samples.synced_task
              Samples.task_list 1 Samples.database Samples.world
              ltac:(done) needsSync_not_stamped task_list_first eq_refl
              ltac:(by vm_compute) ltac:(by vm_compute)
              ltac:(by vm_compute)) as (_ & Hupdate & _).
  exact Hupdate.
Defined.

(** C4 fails as stated: a synced task completed through [patch] or through
    [updateTask] is stored with [needsSync] false. *)
Lemma completed_task_stays_clean :
  Samples.synced_task !! "syncStatus" = Some (VStr "synced")
  ∧ Samples.synced_task !! "needsSync" = Some (VBool false)
  ∧ success (returned Samples.patch_completed) = true
  ∧ (stored Samples.patch_completed !! 1%nat)
      ≫= (λ r : obj, r !! "status") = Some (VStr "completed")
  ∧ (stored Samples.patch_completed !! 1%nat)
      ≫= (λ r : obj, r !! "needsSync") = Some (VBool false)
  ∧ field_of (tasks (stored Samples.update_completed)) "task-2" "status"
    = Some (VStr "completed")
  ∧ field_of (tasks (stored Samples.update_completed)) "task-2" "needsSync"
    = Some (VBool false).
Proof. repeat split; by vm_compute. Qed.

(** The synced sample task replaced by [patch], and completed by
    [updateTask] in a database that holds no evidence. *)
Lemma updatedAt_refresh_witness :
  "updatedAt" ∈ stamped_fields Samples.defaults false
  ∧ first_at Samples.defaults (IdStr "task-2") Samples.task_list 1
      Samples.synced_task
  ∧ (stored Samples.patch_completed !! 1%nat)
      ≫= (λ r : obj, r !! "updatedAt") = Some (VStr "1000")
  ∧ tasks Samples.tasks_only !! "task-2" = Some Samples.synced_task
  ∧ merged_field Samples.completed Samples.synced_task "id"
    = Some (VStr "task-2")
  ∧ field_of (tasks (stored (updateTask "task-2" Samples.completed
                               Samples.tasks_only Samples.world)))
      "task-2" "updatedAt"
    = Some (VDate 1000).
Proof.
  assert (Hstamped : "updatedAt" ∈ stamped_fields Samples.defaults false).
  { simpl. by apply list_elem_of_singleton. }
  assert (Htask : tasks Samples.tasks_only !! "task-2"
                  = Some Samples.synced_task) by reflexivity.
  assert (Hkey : merged_field Samples.completed Samples.synced_task "id"
                 = Some (VStr "task-2")) by reflexivity.
  destruct (@updatedAt_refresh Samples.runtime Samples.defaults
              Samples.accept_all (IdStr "task-2") Samples.synced_task
              Samples.completed Samples.synced_task Samples.synced_task
              Samples.pending_evidence Samples.task_list 1 "task-2"
              "evidence-1" "updatedAt" "task-2" Samples.tasks_only
              Samples.world) as (_ & Hpatch & Hupdate & _).
  split; [exact Hstamped|]. split; [exact task_list_first|].
  split; [|split; [exact Htask|split; [exact Hkey|]]].
  - destruct (Hpatch Hstamped task_list_first eq_refl) as (n & Hn & Hat).
    unfold Samples.patch_completed. rewrite Hat.
    vm_compute in Hn. replace n with 0%nat by lia.
    vm_compute. reflexivity.
  - exact (Hupdate Htask Hkey).
Defined.

(** C9 fails as stated: [updateEvidence] changes the sync status of an
    evidence record at clock reading 1000, and the stored record carries
    no [updatedAt] and the clock has not been read. *)
Lemma updateEvidence_leaves_updatedAt :
  field_of (evidence Samples.database) "evidence-1" "syncStatus"
  = Some (VStr "pending")
  ∧ field_of (evidence (stored Samples.evidence_marked_synced))
      "evidence-1" "syncStatus" = Some (VStr "synced")
  ∧ clock Samples.world (ticks Samples.world) = 1000
  ∧ field_of (evidence (stored Samples.evidence_marked_synced))
      "evidence-1" "updatedAt" = None
  ∧ ticks (world_after Samples.evidence_marked_synced)
    = ticks Samples.world.
Proof. repeat split; by vm_compute. Qed.

End SyncFacts.

(* ================================================================== *)
(** * Further properties of BaseStorageService *)
(* ================================================================== *)
Module BaseStorageMore.
Import Js JsFacts BaseStorage BaseStorageSpec BaseStorageFacts ExtraSpec.

Lemma slice_nonneg {A} (start stop : Z) (l : list A) :
  0 ≤ start → 0 ≤ stop →
  slice start stop l
  = take (Z.to_nat (stop - start)) (drop (Z.to_nat start) l).
Proof.
  intros Hstart Hstop. unfold slice.
  destruct (start <? 0) eqn:E1; [apply Z.ltb_lt in E1; lia|].
  destruct (stop <? 0) eqn:E2; [apply Z.ltb_lt in E2; lia|].
  set (len := Z.of_nat (length l)).
  destruct (Z.le_gt_cases start len) as [Hle|Hgt].
  - rewrite (Z.min_l start len) by lia.
    destruct (Z.le_gt_cases stop len) as [Hle'|Hgt'].
    + rewrite (Z.min_l stop len) by lia.
      destruct (Z.le_gt_cases start stop).
      * by rewrite Z.max_l by lia.
      * rewrite Z.max_r by lia.
        replace (Z.to_nat (stop - start)) with 0%nat by lia. done.
    + rewrite (Z.min_r stop len) by lia. rewrite Z.max_l by lia.
      rewrite !take_ge; [done| |]; rewrite length_drop; lia.
  - rewrite (Z.min_r start len) by lia.
    rewrite !drop_ge by lia. by rewrite !take_nil.
Qed.

Lemma slice_length {A} (start stop : Z) (l : list A) :
  0 ≤ stop - start → Z.of_nat (length (slice start stop l)) ≤ stop - start.
Proof.
  intros Hsize. unfold slice. rewrite length_take, length_drop.
  destruct (start <? 0) eqn:E1; destruct (stop <? 0) eqn:E2;
    rewrite ?Z.ltb_lt, ?Z.ltb_ge in E1, E2; lia.
Qed.

Lemma find_app {A} (p : A → bool) (l l' : list A) :
  find p (l ++ l') = match find p l with
                     | Some x => Some x
                     | None => find p l'
                     end.
Proof.
  induction l as [|x l IH]; simpl; [done|]. by destruct (p x).
Qed.

Lemma find_findIndex {A} (p : A → bool) (l : list A) :
  find p l = findIndex p l ≫= (l !!.).
Proof.
  induction l as [|x l IH]; simpl; [done|].
  destruct (p x); [done|]. rewrite IH.
  by destruct (findIndex p l).
Qed.

Lemma find_head_filter {A} (p : A → bool) (l : list A) :
  find p l = head (List.filter p l).
Proof.
  induction l as [|x l IH]; simpl; [done|]. by destruct (p x).
Qed.

Lemma find_Some_elem {A} (p : A → bool) (l : list A) (x : A) :
  find p l = Some x → x ∈ l ∧ p x = true.
Proof.
  induction l as [|y l IH]; simpl; [done|].
  destruct (p y) eqn:E.
  - intros [= ->]. split; [by left|done].
  - intros [Hin Hp]%IH. split; [by right|done].
Qed.

Lemma find_None_elem {A} (p : A → bool) (l : list A) :
  find p l = None → ∀ x, x ∈ l → p x = false.
Proof.
  induction l as [|y l IH]; simpl.
  - by intros _ x ?%elem_of_nil.
  - destruct (p y) eqn:E; [done|].
    intros Hnone x [->|Hx]%elem_of_cons; auto.
Qed.

Lemma findIndex_app_None {A} (p : A → bool) (l : list A) (x : A) :
  findIndex p l = None → p x = true →
  findIndex p (l ++ [x]) = Some (length l).
Proof.
  intros Hnone Hx. induction l as [|y l IH]; simpl in *.
  - by rewrite Hx.
  - destruct (p y); [done|]. apply fmap_None in Hnone. by rewrite IH.
Qed.

Lemma strict_eq_true (a b : option value) : strict_eq a b = true → a = b.
Proof.
  destruct a as [[]|], b as [[]|]; simpl; try done.
  - by intros ->%eqb_prop.
  - by intros ->%Z.eqb_eq.
  - by intros ->%String.eqb_eq.
Qed.

Lemma Forall_bool_filter {A} (P : A → Prop) (p : A → bool) (l : list A) :
  Forall P l → Forall P (List.filter p l).
Proof.
  rewrite !Forall_forall. intros Hall x.
  rewrite list_elem_of_In, filter_In, <- list_elem_of_In.
  intros [Hx _]. by apply Hall.
Qed.

Lemma NoDup_insert_fresh {A} (l : list A) (i : nat) (x : A) :
  NoDup l → x ∉ l → NoDup (<[i := x]> l).
Proof.
  intros Hnd Hx. destruct (decide (i < length l)%nat) as [Hi|Hi].
  - rewrite insert_take_drop by done.
    rewrite <- (take_drop i l) in Hnd, Hx.
    apply NoDup_app in Hnd as (Hnd1 & Hdisj & Hnd2).
    apply not_elem_of_app in Hx as [Hx1 Hx2].
    assert (Hsub : ∀ y, y ∈ drop (S i) l → y ∈ drop i l).
    { intros y Hy. apply list_elem_of_lookup in Hy as [j Hj].
      rewrite lookup_drop in Hj. apply list_elem_of_lookup.
      exists (S j). rewrite lookup_drop.
      by replace (i + S j)%nat with (S i + j)%nat by lia. }
    apply NoDup_app. split; [done|]. split.
    + intros y Hy [->|Hy']%elem_of_cons; [done|].
      by apply (Hdisj y Hy), Hsub.
    + apply NoDup_cons. split; [by intros ?%Hsub|].
      rewrite <- (take_drop 1 (drop i l)) in Hnd2.
      apply NoDup_app in Hnd2 as (_ & _ & Hnd2).
      rewrite drop_drop in Hnd2.
      by replace (i + 1)%nat with (S i) in Hnd2 by lia.
  - by rewrite list_insert_ge by lia.
Qed.

(** ** Reads *)

Section Reads.
Context `{Runtime}.

Lemma paged_data_stretch (page pageSize : Z)
    (options : option FilterOptions) (data : Store) (w : World) :
  1 ≤ page → 0 ≤ pageSize →
  paged_data (returned (getPaginated (Some page) (Some pageSize) options
                          data w))
  = take (Z.to_nat pageSize)
      (drop (Z.to_nat ((page - 1) * pageSize))
         (returned (getAll options data w))).
Proof.
  intros Hpage Hps. unfold getPaginated, getAll. run.
  rewrite slice_nonneg by nia. f_equal. lia.
Qed.

(** X1: a page of [getPaginated] holds at most [pageSize] records; page
    [p >= 1] is the stretch of what [getAll] returns for the same options
    that starts after [(p - 1) * pageSize] records, [total] is the length of
    that list, and [hasMore] is false exactly when the page reaches its end.
    Page 0 holds no record. *)
Theorem getPaginated_page (page pageSize : Z)
    (options : option FilterOptions) (data : Store) (w : World) :
  0 ≤ pageSize →
  let all := returned (getAll options data w) in
  let r := returned (getPaginated (Some page) (Some pageSize) options
                       data w) in
  total r = Z.of_nat (length all)
  ∧ Z.of_nat (length (paged_data r)) ≤ pageSize
  ∧ (1 ≤ page →
     paged_data r
     = take (Z.to_nat pageSize)
         (drop (Z.to_nat ((page - 1) * pageSize)) all)
     ∧ (hasMore r = false ↔ drop (Z.to_nat (page * pageSize)) all = []))
  ∧ (page = 0 → paged_data r = [])
  ∧ stored (getPaginated (Some page) (Some pageSize) options data w) = data.
Proof.
  intros Hps all r.
  assert (Hstretch := paged_data_stretch page pageSize options data w).
  subst all r. unfold getPaginated, getAll in *. run.
  set (all := match options with
              | Some _ => applyFilters data options
              | None => data
              end) in *.
  split; [done|]. split.
  { etrans; [apply slice_length; lia|]. lia. }
  split; [|split; [|done]].
  - intros Hpage. split; [by apply Hstretch|].
    rewrite Z.ltb_ge. split.
    + intros Hle. apply drop_ge. nia.
    + intros Hdrop. apply (f_equal length) in Hdrop.
      rewrite length_drop in Hdrop. simpl in Hdrop. nia.
  - intros ->. unfold slice.
    match goal with
    | |- take ?n _ = [] => replace n with 0%nat; [done|]
    end.
    destruct ((0 - 1) * pageSize <? 0) eqn:E1;
      destruct ((0 - 1) * pageSize + pageSize <? 0) eqn:E2;
      rewrite ?Z.ltb_lt, ?Z.ltb_ge in E1, E2; lia.
Qed.

(** X2: the pages 1 to [n] of [getPaginated], one after the other, are the
    first [n * pageSize] records of what [getAll] returns for the same
    options: paging skips no record and repeats none. *)
Theorem getPaginated_pages_cover (n : nat) (pageSize : Z)
    (options : option FilterOptions) (data : Store) (w : World) :
  0 ≤ pageSize →
  pages n pageSize options data w
  = take (n * Z.to_nat pageSize) (returned (getAll options data w)).
Proof.
  intros Hps. induction n as [|n IH]; [done|].
  cbn [pages]. rewrite IH, paged_data_stretch by lia.
  replace (Z.to_nat ((Z.of_nat (S n) - 1) * pageSize))
    with (n * Z.to_nat pageSize)%nat by nia.
  rewrite take_take_drop. f_equal. lia.
Qed.

(** X3: [getByField] returns the first, in storage order, of the records
    that [getAllByField] returns, which are the records whose property is
    strictly equal to the value ([undefined] selects the records without
    the property); [getById] is [getByField] on the identifier field. *)
Theorem getByField_first (config : StorageConfig) (field : string)
    (v : option value) (id : Id) (data : Store) (w : World) :
  returned (getByField field v data w)
  = head (returned (getAllByField field v data w))
  ∧ (∀ r, r ∈ returned (getAllByField field v data w)
          ↔ r ∈ data ∧ strict_eq (r !! field) v = true)
  ∧ returned (getById config id data w)
    = returned (getByField (getIdField config) (Some (id_value id)) data w).
Proof.
  unfold getByField, getAllByField, getById. run.
  split; [apply find_head_filter|]. split; [|done].
  intros r. by rewrite list_elem_of_In, filter_In, <- list_elem_of_In.
Qed.

End Reads.

(** The second page of two of a collection of three. *)
Lemma getPaginated_page_witness :
  0 ≤ 2
  ∧ paged_data (returned (getPaginated (H := Samples.runtime) (Some 2)
                            (Some 2) None Samples.catalogue Samples.world))
    = [Samples.priced "c" 20].
Proof.
  split; [lia|].
  destruct (@getPaginated_page Samples.runtime 2 2 None Samples.catalogue
              Samples.world ltac:(lia)) as (_ & _ & Hpage & _).
  destruct (Hpage ltac:(lia)) as [-> _]. by vm_compute.
Defined.

Lemma getPaginated_pages_cover_witness :
  0 ≤ 2
  ∧ pages (H := Samples.runtime) 2 2 None Samples.catalogue Samples.world
    = Samples.catalogue.
Proof.
  split; [lia|].
  rewrite (@getPaginated_pages_cover Samples.runtime 2 2 None
             Samples.catalogue Samples.world ltac:(lia)).
  by vm_compute.
Defined.

(** ** Writes *)

Section Writes.
Context `{Runtime}.
Variable config : StorageConfig.
Variable validate : Store → obj → Validation.

Lemma create_ok (item c : obj) (data : Store) (w : World) :
  returned (create config validate item data w) = ok c →
  stored (create config validate item data w) = data ++ [c]
  ∧ validate data c = Valid.
Proof.
  rewrite create_run. cbv zeta.
  destruct (validate data _) eqn:E; run; intros [=]. by subst.
Qed.

(** X4: after a successful [create], [getById] on the identifier of the
    new record returns it and [exists] holds when the identifier was not in
    use; when it was, [getById] still returns the record that had it, so the
    new record cannot be reached by its identifier.  [count] grows by
    one. *)
Theorem create_then_getById (id : Id) (item c : obj) (data : Store)
    (w w' : World) :
  returned (create config validate item data w) = ok c →
  c !! getIdField config = Some (id_value id) →
  let after := stored (create config validate item data w) in
  (absent config id data →
     returned (getById config id after w') = Some c
     ∧ returned (exists_ config id after w') = true)
  ∧ (∀ index old, first_at config id data index old →
       returned (getById config id after w') = Some old)
  ∧ returned (count None after w') = Z.of_nat (length data) + 1.
Proof.
  intros [Hst _]%create_ok Hid after. subst after. rewrite Hst.
  apply has_id_eq in Hid.
  unfold exists_, getById, count. run. rewrite find_app.
  split; [|split].
  - intros Habs%absent_findIndex.
    rewrite find_findIndex, Habs. simpl. by rewrite Hid.
  - intros index old [Hi Hold]%first_at_findIndex.
    by rewrite find_findIndex, Hi; simpl; rewrite Hold.
  - rewrite length_app. simpl. lia.
Qed.

(** X5: [delete] of an identifier that is present succeeds and removes the
    first record that has it and no other: the collection is one record
    shorter, and when the identifiers are distinct the identifier is absent
    afterwards. *)
Theorem delete_first_match (id : Id) (data : Store) (index : nat)
    (old : obj) (w : World) :
  first_at config id data index old →
  let r := delete config id data w in
  returned r = ok true
  ∧ stored r = take index data ++ drop (S index) data
  ∧ (length (stored r) + 1 = length data)%nat
  ∧ (NoDup (ids config data) → absent config id (stored r)).
Proof.
  intros Hfirst r. subst r.
  pose proof Hfirst as [Hi Hold]%first_at_findIndex.
  unfold delete. run. rewrite Hi. run.
  split; [done|]. split; [apply delete_take_drop|]. split.
  { rewrite length_delete by eauto. apply lookup_lt_Some in Hold. lia. }
  intros Hnd item Hin. rewrite delete_take_drop in Hin.
  destruct (has_id (getIdField config) id item) eqn:E; [|done].
  exfalso. apply has_id_eq in E.
  destruct Hfirst as (_ & Hid%has_id_eq & Hmin).
  apply elem_of_app in Hin as [Hin|Hin].
  - apply list_elem_of_lookup in Hin as [j Hj].
    apply lookup_take_Some in Hj as [Hj Hlt].
    specialize (Hmin j item Hlt Hj). apply has_id_eq in E. congruence.
  - apply list_elem_of_lookup in Hin as [j Hj].
    rewrite lookup_drop in Hj.
    assert (Hat : ids config data !! index = Some (Some (id_value id))).
    { unfold ids. by rewrite list_lookup_fmap, Hold; simpl; rewrite Hid. }
    assert (Hlater : ids config data !! (S index + j)%nat
                     = Some (Some (id_value id))).
    { unfold ids. by rewrite list_lookup_fmap, Hj; simpl; rewrite E. }
    pose proof (NoDup_lookup _ _ _ _ Hnd Hat Hlater). lia.
Qed.

(** X6: creating a record under an identifier that is not in use and then
    deleting that identifier gives back the collection as it was. *)
Theorem create_delete_round_trip (id : Id) (item c : obj) (data : Store)
    (w w' : World) :
  absent config id data →
  returned (create config validate item data w) = ok c →
  c !! getIdField config = Some (id_value id) →
  stored (delete config id
            (stored (create config validate item data w)) w') = data.
Proof.
  intros Habs%absent_findIndex [Hst _]%create_ok Hid%has_id_eq.
  rewrite Hst. unfold delete. run.
  rewrite (findIndex_app_None _ _ _ Habs Hid). run.
  rewrite (delete_middle data [] c). apply app_nil_r.
Qed.

Lemma createBulk_stored (items : list obj) (data : Store) (w : World) :
  stored (createBulk config validate items data w)
  = data ++ List.filter (passes validate data)
              (candidates config items data w).
Proof.
  pose proof (createBulk_loop_spec config validate items data 0 [] []
                data w) as [Hs Hr].
  cbv zeta in Hs, Hr. simpl in Hr.
  unfold createBulk. run.
  destruct (createBulk_loop config validate data (getIdField config)
              items 0 [] [] data w) as [[[newItems errors] s] w1].
  simpl in Hs, Hr. injection Hr as -> ->. subst s.
  destruct (List.filter _ _); simpl; by rewrite ?app_nil_r.
Qed.

(** X7: a property that every record accepted by [validate] has, and that
    the stored records have, is a property of the stored records after any
    of [create], [createBulk], [put], [patch], [delete], [deleteBulk],
    [deleteWhere] and [clear]: no record enters the collection without
    passing the hook. *)
Theorem validation_gate (P : obj → Prop) (id : Id) (ids : list Id)
    (criteria : Where) (item updates : obj) (items : list obj)
    (data : Store) (w : World) :
  (∀ d r, validate d r = Valid → P r) →
  Forall P data →
  Forall P (stored (create config validate item data w))
  ∧ Forall P (stored (createBulk config validate items data w))
  ∧ Forall P (stored (put config validate id item data w))
  ∧ Forall P (stored (patch config validate id updates data w))
  ∧ Forall P (stored (delete config id data w))
  ∧ Forall P (stored (deleteBulk config ids data w))
  ∧ Forall P (stored (deleteWhere criteria data w))
  ∧ Forall P (stored (clear data w)).
Proof.
  intros Hgate Hdata.
  split; [|split; [|split; [|split; [|split; [|split; [|split]]]]]].
  - rewrite create_run. cbv zeta.
    destruct (validate data _) eqn:E; run; [|done|done].
    apply Forall_app. split; [done|]. apply Forall_singleton. eauto.
  - rewrite createBulk_stored. apply Forall_app. split; [done|].
    apply Forall_forall. intros c.
    rewrite list_elem_of_In, filter_In. unfold passes. intros [_ Hc].
    destruct (validate data c) eqn:E; try done. eauto.
  - rewrite put_run. destruct (findIndex _ data); [|done]. cbv zeta.
    destruct (validate data _) eqn:E; run; [|done|done].
    apply Forall_insert; eauto.
  - rewrite patch_run. destruct (findIndex _ data); [|done]. cbv zeta.
    destruct (validate data _) eqn:E; run; [|done|done].
    apply Forall_insert; eauto.
  - unfold delete. run. destruct (findIndex _ data); run; [|done].
    by apply Forall_delete.
  - unfold deleteBulk. run. by apply Forall_bool_filter.
  - unfold deleteWhere. run. by apply Forall_bool_filter.
  - unfold clear. run. done.
Qed.

(** X8: [put], [patch] and [delete] act on the first record that has the
    identifier and on no other: [put] and [patch] keep the length and every
    other record, also a later one with the same identifier, where it is;
    [delete] keeps the records before it and moves the later ones up by
    one. *)
Theorem update_first_match_only (id : Id) (item updates old : obj)
    (data : Store) (index : nat) (w : World) :
  first_at config id data index old →
  let rput := stored (put config validate id item data w) in
  let rpatch := stored (patch config validate id updates data w) in
  let rdelete := stored (delete config id data w) in
  length rput = length data ∧ length rpatch = length data
  ∧ (∀ j, j ≠ index → rput !! j = data !! j ∧ rpatch !! j = data !! j)
  ∧ (∀ j, (j < index)%nat → rdelete !! j = data !! j)
  ∧ (∀ j, (index ≤ j)%nat → rdelete !! j = data !! S j).
Proof.
  intros [Hi Hold]%first_at_findIndex rput rpatch rdelete.
  subst rput rpatch rdelete. rewrite put_run, patch_run, Hi. cbv zeta.
  unfold delete. run. rewrite Hi. run.
  split; [|split; [|split; [|split]]].
  - destruct (validate data _); run; by rewrite ?length_insert.
  - destruct (validate data _); run; by rewrite ?length_insert.
  - intros j Hj.
    split; destruct (validate data _); run;
      by rewrite ?list_lookup_insert_ne.
  - intros j Hj. by apply list_lookup_delete_lt.
  - intros j Hj. by apply list_lookup_delete_ge.
Qed.

Lemma addTimestamps_any_store item isNew (d d' : Store) w :
  returned (addTimestamps config item isNew d w)
  = returned (addTimestamps config item isNew d' w)
  ∧ world_after (addTimestamps config item isNew d w)
    = world_after (addTimestamps config item isNew d' w).
Proof.
  unfold addTimestamps.
  destruct (timestampFields config) as [[[c|] [u|]]|]; simpl;
    repeat match goal with
           | |- context [if ?b then _ else _] => destruct b
           end; run; done.
Qed.

Lemma prepare_any_store item (d d' : Store) w :
  returned (prepare config item d w) = returned (prepare config item d' w)
  ∧ world_after (prepare config item d w)
    = world_after (prepare config item d' w).
Proof.
  unfold prepare, generateId.
  destruct (item !! getIdField config); run;
    match goal with
    | |- context [addTimestamps config ?a true d ?w'] =>
        pose proof (addTimestamps_any_store a true d d' w') as [Hr Hw];
        destruct (addTimestamps config a true d w') as [[c s] w1];
        destruct (addTimestamps config a true d' w') as [[c' s'] w1']
    end; run; by subst.
Qed.

Lemma candidates_any_store items (d d' : Store) w :
  candidates config items d w = candidates config items d' w.
Proof.
  revert w. induction items as [|item rest IH]; intros w; simpl; [done|].
  destruct (prepare_any_store item d d' w) as [-> ->]. by rewrite IH.
Qed.

(** X9: when the verdict of [validate] does not depend on the stored
    collection, [createBulk] leaves the collection that calling [create] on
    the items one after the other leaves. *)
Theorem createBulk_as_creates (items : list obj) (data : Store)
    (w : World) :
  store_independent validate →
  stored (createBulk config validate items data w)
  = (create_each config validate items data w).1.
Proof.
  intros Hind. rewrite createBulk_stored.
  revert data w. induction items as [|item rest IH]; intros data w.
  - simpl. apply app_nil_r.
  - cbn [create_each candidates List.filter]. rewrite create_run. cbv zeta.
    unfold passes at 1.
    destruct (validate data (returned (prepare config item data w))) eqn:E;
      unfold stored at 1, world_after at 2; cbn [fst snd];
      rewrite <- IH.
    + rewrite <- app_assoc. simpl. do 2 f_equal.
      rewrite (candidates_any_store rest (data ++ _) data).
      apply filter_ext. intros c. unfold passes.
      by rewrite (Hind (data ++ _) data).
    + done.
    + done.
Qed.

(** X10: [deleteWhere] reports the number of records it removes, which
    with the number it keeps is the number there was; with the empty
    criteria object, which every record matches, it removes them all, and
    [getAll] with that [where] returns the whole collection. *)
Theorem deleteWhere_partition (criteria : Where) (data : Store)
    (w : World) :
  let r := deleteWhere criteria data w in
  (∃ n, BaseStorage.data (returned r) = Some n
        ∧ n + Z.of_nat (length (stored r)) = Z.of_nat (length data))
  ∧ (criteria = WhereObj ∅ →
     stored r = []
     ∧ BaseStorage.data (returned r) = Some (Z.of_nat (length data))
     ∧ returned (getAll (Some {| where_ := Some criteria; orderBy := None;
                                 order := None; limit := None;
                                 offset := None |}) data w) = data).
Proof.
  unfold deleteWhere, getAll. run. split.
  - eexists. split; [done|].
    induction data as [|x l IH]; simpl; [done|].
    destruct (where_test criteria x); simpl; lia.
  - intros ->. unfold applyFilters. simpl. unfold matches.
    rewrite map_to_list_empty. simpl.
    assert (Hall : ∀ l : Store, List.filter (λ _, true) l = l).
    { induction l as [|x l IH]; simpl; [done|]. by rewrite IH. }
    assert (Hnone : ∀ l : Store, List.filter (λ _, negb true) l = []).
    { induction l as [|x l IH]; simpl; [done|]. done. }
    by rewrite Hall, Hnone.
Qed.

End Writes.

Lemma created_ok : returned Samples.created = ok Samples.created_record.
Proof. by vm_compute. Qed.

Lemma created_record_id :
  Samples.created_record !! getIdField Samples.defaults
  = Some (id_value (IdStr "zz")).
Proof. by vm_compute. Qed.

Lemma catalogue_first_b :
  first_at Samples.defaults (IdStr "b") Samples.catalogue 1
    (Samples.priced "b" 10).
Proof. apply first_at_findIndex. split; by vm_compute. Qed.

Lemma create_then_getById_witness :
  returned Samples.created = ok Samples.created_record
  ∧ Samples.created_record !! getIdField Samples.defaults
    = Some (id_value (IdStr "zz"))
  ∧ returned (count (H := Samples.runtime) None (stored Samples.created)
                Samples.world) = 4.
Proof.
  split; [exact created_ok|]. split; [exact created_record_id|].
  destruct (@create_then_getById Samples.runtime Samples.defaults
              Samples.accept_all (IdStr "zz") (Samples.priced "zz" 5)
              Samples.created_record Samples.catalogue Samples.world
              Samples.world created_ok created_record_id)
    as (_ & _ & Hcount).
  exact Hcount.
Defined.

Lemma delete_first_match_witness :
  first_at Samples.defaults (IdStr "b") Samples.catalogue 1
    (Samples.priced "b" 10)
  ∧ stored (delete Samples.defaults (IdStr "b") Samples.catalogue
              Samples.world)
    = [Samples.priced "a" 30; Samples.priced "c" 20].
Proof.
  split; [exact catalogue_first_b|].
  destruct (delete_first_match Samples.defaults (IdStr "b")
              Samples.catalogue 1 (Samples.priced "b" 10) Samples.world
              catalogue_first_b) as (_ & -> & _).
  reflexivity.
Defined.

Lemma create_delete_round_trip_witness :
  absent Samples.defaults (IdStr "zz") Samples.catalogue
  ∧ returned Samples.created = ok Samples.created_record
  ∧ Samples.created_record !! getIdField Samples.defaults
    = Some (id_value (IdStr "zz"))
  ∧ stored (delete Samples.defaults (IdStr "zz") (stored Samples.created)
              Samples.world) = Samples.catalogue.
Proof.
  split; [exact catalogue_absent|]. split; [exact created_ok|].
  split; [exact created_record_id|].
  exact (@create_delete_round_trip Samples.runtime Samples.defaults
           Samples.accept_all (IdStr "zz") (Samples.priced "zz" 5)
           Samples.created_record Samples.catalogue Samples.world
           Samples.world catalogue_absent created_ok created_record_id).
Defined.

Lemma needs_price_gate (d : Store) (r : obj) :
  Samples.needs_price d r = Valid → Samples.has_price r.
Proof.
  unfold Samples.needs_price, Samples.has_price.
  by destruct (truthy (r !! "price")).
Qed.

Lemma catalogue_priced : Forall Samples.has_price Samples.catalogue.
Proof. repeat constructor. Qed.

Lemma validation_gate_witness :
  (∀ d r, Samples.needs_price d r = Valid → Samples.has_price r)
  ∧ Forall Samples.has_price Samples.catalogue
  ∧ Forall Samples.has_price
      (stored (createBulk (H := Samples.runtime) Samples.defaults
                 Samples.needs_price Samples.batch Samples.catalogue
                 Samples.world)).
Proof.
  split; [exact needs_price_gate|]. split; [exact catalogue_priced|].
  destruct (@validation_gate Samples.runtime Samples.defaults
              Samples.needs_price Samples.has_price (IdStr "b") []
              (WhereObj ∅) ∅ ∅ Samples.batch Samples.catalogue
              Samples.world needs_price_gate catalogue_priced)
    as (_ & Hbulk & _).
  exact Hbulk.
Defined.

Lemma update_first_match_only_witness :
  first_at Samples.defaults (IdStr "b") Samples.catalogue 1
    (Samples.priced "b" 10)
  ∧ stored (patch (H := Samples.runtime) Samples.defaults
              Samples.accept_all (IdStr "b") {[ "price" := VNum 11 ]}
              Samples.catalogue Samples.world) !! 2%nat
    = Some (Samples.priced "c" 20).
Proof.
  split; [exact catalogue_first_b|].
  destruct (@update_first_match_only Samples.runtime Samples.defaults
              Samples.accept_all (IdStr "b") ∅ {[ "price" := VNum 11 ]}
              (Samples.priced "b" 10) Samples.catalogue 1 Samples.world
              catalogue_first_b) as (_ & _ & Hframe & _).
  destruct (Hframe 2%nat ltac:(lia)) as [_ ->]. reflexivity.
Defined.

Lemma needs_price_independent : store_independent Samples.needs_price.
Proof. by intros d d' item. Qed.

Lemma createBulk_as_creates_witness :
  store_independent Samples.needs_price
  ∧ length (create_each (H := Samples.runtime) Samples.defaults
              Samples.needs_price Samples.batch Samples.catalogue
              Samples.world).1 = 5%nat.
Proof.
  split; [exact needs_price_independent|].
  rewrite <- (@createBulk_as_creates Samples.runtime Samples.defaults
                Samples.needs_price Samples.batch Samples.catalogue
                Samples.world needs_price_independent).
  by vm_compute.
Defined.

End BaseStorageMore.

(* ================================================================== *)
(** * Services built on BaseStorageService *)
(* ================================================================== *)
Module CardListFacts.
Import Js JsFacts BaseStorage BaseStorageSpec BaseStorageFacts ExtraSpec.
Import BaseStorageMore.

Section CardList.
Context `{Runtime}.
Variable keyName : string.

Lemma saveList_stored (data : list obj) (s : Store) (w : World) :
  stored (CardListStorage.saveList keyName data s w)
  = candidates (CardListStorage.config keyName) data [] w.
Proof.
  unfold CardListStorage.saveList, clear. run.
  destruct (0 <? Z.of_nat (length data)) eqn:E.
  - pose proof (createBulk_stored (CardListStorage.config keyName)
                  CardListStorage.validate data [] w) as Hst.
    unfold stored in Hst.
    destruct (createBulk _ _ data [] w) as [[r s'] w']. simpl in *.
    rewrite Hst. clear.
    induction (candidates _ data [] w) as [|c l IH]; simpl; [done|].
    by rewrite IH.
  - apply Z.ltb_ge in E. destruct data; [done|simpl in E; lia].
Qed.

Lemma prepare_createdAt (item : obj) (s : Store) (w : World) :
  ∃ n, returned (prepare (CardListStorage.config keyName) item s w)
         !! "createdAt" = Some (VStr (toISOString (clock w n))).
Proof.
  unfold prepare, generateId, addTimestamps.
  destruct (item !! getIdField _); run; eexists;
    rewrite lookup_insert_ne by done; apply lookup_insert_eq.
Qed.

(** X11: [saveList] replaces whatever the list held: afterwards it holds
    one record per item given, in the order given, each with an identifier
    and a creation time and otherwise the properties of its item; and
    [hasData] then tells whether the list given was not empty. *)
Theorem saveList_replaces (data : list obj) (s : Store) (w w' : World) :
  let after := stored (CardListStorage.saveList keyName data s w) in
  length after = length data
  ∧ (∀ i item, data !! i = Some item →
       ∃ c, after !! i = Some c
            ∧ is_Some (c !! "id")
            ∧ (∃ t, c !! "createdAt" = Some (VStr (toISOString t)))
            ∧ ∀ k, k ≠ "id" → k ≠ "createdAt" → k ≠ "updatedAt" →
                   c !! k = item !! k)
  ∧ returned (CardListStorage.hasData after w')
    = bool_decide (data ≠ []).
Proof.
  intros after. subst after. rewrite saveList_stored.
  split; [apply candidates_length|]. split.
  - intros i item
      [w1 Hi]%(candidates_lookup (CardListStorage.config keyName)
                 data [] w).
    eexists. split; [exact Hi|]. split.
    { apply (prepare_has_id (CardListStorage.config keyName)
               CardListStorage.validate). }
    split.
    { destruct (prepare_createdAt item [] w1) as [n Hn]. eauto. }
    intros k Hid Hc Hu.
    apply (prepare_other (CardListStorage.config keyName)
             CardListStorage.validate); [done|].
    change (stamped_fields (CardListStorage.config keyName) true)
      with ["createdAt"; "updatedAt"].
    by intros [->|[->|[]%elem_of_nil]%elem_of_cons]%elem_of_cons.
  - unfold CardListStorage.hasData, count. run.
    rewrite candidates_length. by destruct data.
Qed.

End CardList.
End CardListFacts.

Module UserStorageFacts.
Import Js JsFacts BaseStorage BaseStorageSpec BaseStorageFacts ExtraSpec.
Import BaseStorageMore.

Section Users.
Context `{Runtime}.
Variable emailRegex_test : value → bool.
Variable type_error : string.

Lemma validate_Valid (data : Store) (c : obj) :
  UserStorage.validate emailRegex_test type_error data c = Valid →
  (∃ u, c !! "username" = Some (VStr u))
  ∧ UserStorage.taken data "username" c = false
  ∧ UserStorage.taken data "email" c = false.
Proof.
  unfold UserStorage.validate.
  destruct (negb (truthy (c !! "username"))); [done|].
  destruct (c !! "username") as [[| | |u| | |]|]; try done.
  destruct (_ =? 0); [done|].
  destruct (c !! "email") as [e|]; [|done].
  destruct (_ || _); [done|].
  destruct (UserStorage.taken data "username" c); [done|].
  destruct (UserStorage.taken data "email" c); [done|].
  intros _. split; [by exists u|done].
Qed.

Lemma not_taken_fresh (data : Store) (field : string) (c : obj)
    (s : string) :
  c !! field = Some (VStr s) →
  UserStorage.taken data field c = false →
  c !! "id" ∉ column "id" data →
  c !! field ∉ column field data.
Proof.
  intros Hc Htaken Hid Hin. unfold column in Hin, Hid.
  apply list_elem_of_fmap in Hin as (r & Hr & Hin).
  unfold UserStorage.taken in Htaken.
  destruct (find _ data) as [existing|] eqn:E.
  - apply find_Some_elem in E as [Hex _].
    apply negb_false_iff, strict_eq_true in Htaken.
    apply Hid. rewrite <- Htaken.
    apply list_elem_of_fmap. by exists existing.
  - apply find_None_elem with (x := r) in E; [|done].
    rewrite <- Hr, Hc in E. simpl in E. by rewrite String.eqb_refl in E.
Qed.

Lemma config_id_not_stamped :
  getIdField UserStorage.config ∉ stamped_fields UserStorage.config false.
Proof. simpl. by intros [=]%list_elem_of_singleton. Qed.

(** X12: when [create] of the user service succeeds and the identifier of
    the new record is not in use, user names that were distinct stay
    distinct, and so do e-mail addresses when the new one is a string. *)
Theorem create_keeps_usernames_distinct (item c : obj) (data : Store)
    (w : World) :
  returned (create UserStorage.config
              (UserStorage.validate emailRegex_test type_error)
              item data w) = ok c →
  c !! "id" ∉ column "id" data →
  let after := stored (create UserStorage.config
                         (UserStorage.validate emailRegex_test type_error)
                         item data w) in
  (NoDup (column "username" data) → NoDup (column "username" after))
  ∧ (∀ e, c !! "email" = Some (VStr e) →
      NoDup (column "email" data) → NoDup (column "email" after)).
Proof.
  rewrite create_run. cbv zeta.
  destruct (UserStorage.validate _ _ data _) eqn:E; run; intros [=] Hid.
  subst c.
  set (c := returned (prepare UserStorage.config item data w)) in *.
  apply validate_Valid in E as ([u Hu] & Hname & Hmail).
  unfold column. rewrite !fmap_app. simpl.
  split.
  - intros Hnd. apply NoDup_app.
    split; [done|]. split; [|apply NoDup_singleton].
    intros x Hx [->|[]%elem_of_nil]%elem_of_cons.
    by apply (not_taken_fresh data "username" c u).
  - intros e He Hnd. apply NoDup_app.
    split; [done|]. split; [|apply NoDup_singleton].
    intros x Hx [->|[]%elem_of_nil]%elem_of_cons.
    by apply (not_taken_fresh data "email" c e).
Qed.

(** X13: in a user collection with distinct identifiers, [put] and
    [patch] keep distinct user names distinct: an update that would give a
    user the name of another is rejected and stores nothing. *)
Theorem update_keeps_usernames_distinct (id : Id) (item updates : obj)
    (data : Store) (w : World) :
  NoDup (column "id" data) → NoDup (column "username" data) →
  NoDup (column "username"
           (stored (put UserStorage.config
                      (UserStorage.validate emailRegex_test type_error)
                      id item data w)))
  ∧ NoDup (column "username"
             (stored (patch UserStorage.config
                        (UserStorage.validate emailRegex_test type_error)
                        id updates data w))).
Proof.
  intros Hids Hnames.
  assert (Hstep : ∀ index c,
            findIndex (has_id (getIdField UserStorage.config) id) data
            = Some index →
            c !! "id" = Some (id_value id) →
            UserStorage.validate emailRegex_test type_error data c
            = Valid →
            NoDup (column "username" (<[index := c]> data))).
  { intros index c Hi Hcid Hvalid.
    apply findIndex_Some in Hi as [(old & Hold & Hid%has_id_eq) _].
    change (getIdField UserStorage.config) with "id" in Hid.
    apply validate_Valid in Hvalid as ([u Hu] & Hname & _).
    unfold column. rewrite list_fmap_insert.
    unfold UserStorage.taken in Hname.
    destruct (find _ data) as [existing|] eqn:E.
    - apply find_Some_elem in E as [Hex Hsame].
      apply negb_false_iff, strict_eq_true in Hname.
      apply list_elem_of_lookup in Hex as [j Hj].
      assert (j = index) as ->.
      { apply (NoDup_lookup (column "id" data) j index
                 (Some (id_value id)) Hids); unfold column;
          rewrite list_lookup_fmap; [rewrite Hj|rewrite Hold]; simpl;
          congruence. }
      assert (existing = old) as -> by congruence.
      apply strict_eq_true in Hsame.
      rewrite list_insert_id; [done|].
      rewrite list_lookup_fmap, Hold. simpl. congruence.
    - apply NoDup_insert_fresh; [done|].
      intros Hin. apply list_elem_of_fmap in Hin as (r & Hr & Hin).
      apply find_None_elem with (x := r) in E; [|done].
      rewrite <- Hr, Hu in E. simpl in E.
      by rewrite String.eqb_refl in E. }
  split.
  - rewrite put_run.
    destruct (findIndex _ data) as [index|] eqn:Hi; [|done]. cbv zeta.
    destruct (UserStorage.validate _ _ data _) eqn:E;
      unfold stored; cbn [fst snd]; try done.
    apply Hstep; [done| |done].
    apply (replacement_id UserStorage.config
             (UserStorage.validate emailRegex_test type_error)),
      config_id_not_stamped.
  - rewrite patch_run.
    destruct (findIndex _ data) as [index|] eqn:Hi; [|done]. cbv zeta.
    destruct (UserStorage.validate _ _ data _) eqn:E;
      unfold stored; cbn [fst snd]; try done.
    apply Hstep; [done| |done].
    apply (replacement_id UserStorage.config
             (UserStorage.validate emailRegex_test type_error)),
      config_id_not_stamped.
Qed.

End Users.

Lemma bob_created_ok :
  returned Samples.bob_created = ok Samples.bob_record.
Proof. by vm_compute. Qed.

Lemma bob_id_fresh :
  Samples.bob_record !! "id" ∉ column "id" Samples.users.
Proof.
  change (column "id" Samples.users) with [Samples.alice !! "id"].
  intros Hin%list_elem_of_singleton. by vm_compute in Hin.
Qed.

Lemma users_ids_distinct : NoDup (column "id" Samples.users).
Proof.
  change (column "id" Samples.users) with [Samples.alice !! "id"].
  apply NoDup_singleton.
Qed.

Lemma users_names_distinct : NoDup (column "username" Samples.users).
Proof.
  change (column "username" Samples.users)
    with [Samples.alice !! "username"].
  apply NoDup_singleton.
Qed.

Lemma create_keeps_usernames_distinct_witness :
  returned Samples.bob_created = ok Samples.bob_record
  ∧ (Samples.bob_record !! "id" ∉ column "id" Samples.users)
  ∧ NoDup (column "username" (stored Samples.bob_created)).
Proof.
  split; [exact bob_created_ok|]. split; [exact bob_id_fresh|].
  destruct (@create_keeps_usernames_distinct Samples.runtime
              Samples.any_email "TypeError" Samples.bob Samples.bob_record
              Samples.users Samples.world bob_created_ok bob_id_fresh)
    as [Hnames _].
  exact (Hnames users_names_distinct).
Defined.

Lemma team_ids_distinct : NoDup (column "id" Samples.team).
Proof.
  change (column "id" Samples.team)
    with [Samples.alice !! "id"; Samples.bea !! "id"].
  apply NoDup_cons. split; [|apply NoDup_singleton].
  intros Hin%list_elem_of_singleton. by vm_compute in Hin.
Qed.

Lemma team_names_distinct : NoDup (column "username" Samples.team).
Proof.
  change (column "username" Samples.team)
    with [Samples.alice !! "username"; Samples.bea !! "username"].
  apply NoDup_cons. split; [|apply NoDup_singleton].
  intros Hin%list_elem_of_singleton. by vm_compute in Hin.
Qed.

(** In a collection of two users, the second is renamed to a name that is
    free, which is stored, and to the name of the first, which is rejected;
    the names stay distinct both times. *)
Lemma update_keeps_usernames_distinct_witness :
  NoDup (column "id" Samples.team)
  ∧ NoDup (column "username" Samples.team)
  ∧ column "username"
      (stored (patch (H := Samples.runtime) UserStorage.config
                 Samples.users_validate (IdStr "u2")
                 {[ "username" := VStr "carol" ]}
                 Samples.team Samples.world))
    = [Some (VStr "alice"); Some (VStr "carol")]
  ∧ NoDup (column "username"
             (stored (patch (H := Samples.runtime) UserStorage.config
                        Samples.users_validate (IdStr "u2")
                        {[ "username" := VStr "carol" ]}
                        Samples.team Samples.world)))
  ∧ column "username"
      (stored (patch (H := Samples.runtime) UserStorage.config
                 Samples.users_validate (IdStr "u2")
                 {[ "username" := VStr "alice" ]}
                 Samples.team Samples.world))
    = [Some (VStr "alice"); Some (VStr "bea")]
  ∧ NoDup (column "username"
             (stored (patch (H := Samples.runtime) UserStorage.config
                        Samples.users_validate (IdStr "u2")
                        {[ "username" := VStr "alice" ]}
                        Samples.team Samples.world))).
Proof.
  split; [exact team_ids_distinct|]. split; [exact team_names_distinct|].
  destruct (@update_keeps_usernames_distinct Samples.runtime
              Samples.any_email "TypeError" (IdStr "u2") ∅
              {[ "username" := VStr "carol" ]} Samples.team Samples.world
              team_ids_distinct team_names_distinct) as [_ Hfree].
  destruct (@update_keeps_usernames_distinct Samples.runtime
              Samples.any_email "TypeError" (IdStr "u2") ∅
              {[ "username" := VStr "alice" ]} Samples.team Samples.world
              team_ids_distinct team_names_distinct) as [_ Htaken].
  split; [vm_compute; reflexivity|]. split; [exact Hfree|].
  split; [vm_compute; reflexivity|]. exact Htaken.
Defined.

End UserStorageFacts.

(* ================================================================== *)
(** * Further properties of StorageService *)
(* ================================================================== *)
Module WebStorageMore.
Import Js JsFacts WebStorage SyncSpec WebStorageFacts ExtraSpec.
Import SyncQueueStore.

Lemma keyed_insert (s : gmap string obj) (key : string) (v : obj) :
  keyed s → v !! "id" = Some (VStr key) → keyed (<[key := v]> s).
Proof.
  intros Hs Hv k r [[<- <-]|[_ Hr]]%lookup_insert_Some; [done|by apply Hs].
Qed.

Lemma put_keyed (storeName : StoreName) (v : obj) (d : DB) w :
  db_keyed d → db_keyed (stored (dbHelper_put storeName v d w)).
Proof.
  intros [Ht He]. rewrite stored_put.
  destruct (v !! "id") as [[| | |key| | |]|] eqn:E; try done.
  destruct storeName; split; cbn; auto using keyed_insert.
Qed.

Lemma put_each_keyed (items : list obj) (s : gmap string obj) :
  keyed s → keyed (put_each items s).
Proof.
  revert s. induction items as [|item rest IH]; intros s Hs; simpl;
    [done|].
  destruct (item !! "id") as [[| | |key| | |]|] eqn:E; try done.
  apply IH. by apply keyed_insert.
Qed.

Lemma put_each_pairs (l : list (string * obj)) (acc : gmap string obj) :
  (∀ kr, kr ∈ l → kr.2 !! "id" = Some (VStr kr.1)) →
  put_each l.*2 acc = foldl store_pair acc l.
Proof.
  revert acc. induction l as [|[k r] l IH]; intros acc Hl; simpl; [done|].
  pose proof (Hl (k, r) ltac:(by left)) as Hk. simpl in Hk. rewrite Hk.
  apply IH.
  intros kr Hkr. apply Hl. by right.
Qed.

Lemma foldl_store_pair_lookup (l : list (string * obj))
    (acc : gmap string obj) (key : string) :
  NoDup l.*1 →
  foldl store_pair acc l !! key
  = match (list_to_map l : gmap string obj) !! key with
    | Some r => Some r
    | None => acc !! key
    end.
Proof.
  revert acc. induction l as [|[k r] l IH]; intros acc Hnd; simpl; [done|].
  apply NoDup_cons in Hnd as [Hk Hnd]. rewrite IH by done.
  unfold store_pair; simpl.
  destruct (decide (k = key)) as [->|Hne].
  - rewrite !lookup_insert_eq.
    by rewrite (not_elem_of_list_to_map_1 _ key Hk).
  - by rewrite !lookup_insert_ne.
Qed.

Lemma put_each_in_key_order (s : gmap string obj) :
  keyed s → put_each (in_key_order s) ∅ = s.
Proof.
  intros Hs. unfold in_key_order.
  assert (Hperm := merge_sort_Permutation key_le (map_to_list s)).
  rewrite put_each_pairs.
  - apply map_eq. intros key. rewrite foldl_store_pair_lookup.
    + rewrite (list_to_map_proper _ (map_to_list s)), list_to_map_to_list.
      * by destruct (s !! key).
      * rewrite Hperm. apply NoDup_fst_map_to_list.
      * done.
    + rewrite Hperm. apply NoDup_fst_map_to_list.
  - intros [k r] Hin. rewrite Hperm in Hin.
    apply elem_of_map_to_list in Hin. by apply Hs.
Qed.

Lemma put_each_from (items : list obj) (acc : gmap string obj)
    (key : string) (r : obj) :
  put_each items acc !! key = Some r → r ∈ items ∨ acc !! key = Some r.
Proof.
  revert acc. induction items as [|item rest IH]; intros acc; simpl.
  - by right.
  - destruct (item !! "id") as [[| | |k| | |]|]; try (by right).
    intros [Hin|[[_ <-]|[_ Hacc]]%lookup_insert_Some]%IH.
    + left. by right.
    + left. by left.
    + by right.
Qed.

Lemma put_each_holds (items : list obj) (acc : gmap string obj) (r : obj)
    (key : string) :
  Forall (λ t : obj, ∃ k, t !! "id" = Some (VStr k)) items →
  NoDup (column "id" items) →
  r ∈ items → r !! "id" = Some (VStr key) →
  put_each items acc !! key = Some r.
Proof.
  revert acc.
  induction items as [|item rest IH]; intros acc Hall Hnd Hin Hid.
  - by apply elem_of_nil in Hin.
  - apply Forall_cons in Hall as [[k Hk] Hall].
    unfold column in Hnd. simpl in Hnd.
    apply NoDup_cons in Hnd as [Hfresh Hnd]. simpl. rewrite Hk.
    apply elem_of_cons in Hin as [->|Hin].
    + assert (k = key) as -> by congruence.
      assert (Hkeep : ∀ acc', acc' !! key = Some item →
                put_each rest acc' !! key = Some item).
      { clear IH Hall Hnd. revert Hfresh.
        induction rest as [|x rest IH]; intros Hfresh acc' Hacc; simpl;
          [done|].
        destruct (x !! "id") as [[| | |k'| | |]|] eqn:E; try done.
        apply IH.
        - intros Hin. apply Hfresh. simpl. by right.
        - rewrite lookup_insert_ne; [done|]. intros ->.
          apply Hfresh. simpl. apply elem_of_cons. left. congruence. }
      apply Hkeep, lookup_insert_eq.
    + by apply IH.
Qed.

Lemma pending_elem (d : DB) (w : World) (r : obj) :
  (r ∈ pendingTasks (returned (getItemsNeedingSync d w))
   ↔ record_of d TASKS r ∧ needsSyncing r = true)
  ∧ (r ∈ pendingEvidence (returned (getItemsNeedingSync d w))
     ↔ record_of d EVIDENCE r ∧ needsSyncing r = true).
Proof.
  unfold getItemsNeedingSync, getTasks, getAllEvidence, dbHelper_getAll.
  steps. cbn [pendingTasks pendingEvidence objectStore].
  split; rewrite list_elem_of_In, filter_In, <- list_elem_of_In;
    by rewrite in_key_order_elem.
Qed.

(** X14: when every task and every evidence record is stored under its
    own [id], it is so after [addTask], [addEvidence], [updateTask],
    [updateEvidence] and [saveTasks], whatever they are given. *)
Theorem records_keyed_by_id (v updates : obj) (key : string)
    (items : list obj) (d : DB) (w : World) :
  db_keyed d →
  db_keyed (stored (addTask v d w))
  ∧ db_keyed (stored (addEvidence v d w))
  ∧ db_keyed (stored (updateTask key updates d w))
  ∧ db_keyed (stored (updateEvidence key updates d w))
  ∧ db_keyed (stored (saveTasks items d w)).
Proof.
  intros Hd. split; [by apply put_keyed|]. split; [by apply put_keyed|].
  split; [|split].
  - rewrite updateTask_run. destruct (tasks d !! key); [|done].
    by apply put_keyed.
  - rewrite updateEvidence_run. destruct (evidence d !! key); [|done].
    by apply put_keyed.
  - destruct Hd as [_ He]. unfold saveTasks, dbHelper_putMany. steps.
    split; cbn; [|done]. apply put_each_keyed. by intros k r ?.
Qed.

(** X15: [addTask] is an upsert on the [id] of the task: afterwards a
    lookup of that id gives the task, the tasks are the task and the tasks
    that were stored under other ids, their number grows by one exactly
    when the id was new, and no evidence record changes. *)
Theorem addTask_upserts (task : obj) (key : string) (d : DB)
    (w w' : World) :
  task !! "id" = Some (VStr key) →
  let after := stored (addTask task d w) in
  returned (dbHelper_get TASKS key after w') = Some task
  ∧ (∀ r, r ∈ returned (getTasks None after w') ↔
          r = task ∨ ∃ key', key' ≠ key ∧ tasks d !! key' = Some r)
  ∧ size (tasks after)
    = match tasks d !! key with
      | Some _ => size (tasks d)
      | None => S (size (tasks d))
      end
  ∧ evidence after = evidence d.
Proof.
  intros Hid after. subst after. unfold addTask. rewrite stored_put, Hid.
  unfold dbHelper_get, getTasks, dbHelper_getAll. steps.
  cbn [objectStore with_objectStore tasks evidence].
  split; [apply lookup_insert_eq|]. split; [|split; [|done]].
  - intros r. rewrite in_key_order_elem. split.
    + intros [k [[_ <-]|[Hne Hk]]%lookup_insert_Some]; [by left|].
      right. by exists k.
    + intros [->|(k & Hne & Hk)].
      * exists key. apply lookup_insert_eq.
      * exists k. by rewrite lookup_insert_ne.
  - destruct (tasks d !! key) as [old|] eqn:E.
    + rewrite <- (insert_delete_eq (tasks d)) at 1.
      rewrite map_size_insert_None by apply lookup_delete_eq.
      rewrite <- (insert_delete_id (tasks d) key old E) at 2.
      by rewrite map_size_insert_None by apply lookup_delete_eq.
    + by apply map_size_insert_None.
Qed.

(** X16: [getTasks] without a project id, or with the empty string,
    returns every stored task; with a project id it returns the tasks whose
    [projectId] is that string; [getEvidence] returns the evidence records
    whose [taskId] is the task id given. *)
Theorem getTasks_by_project (projectId taskId : string) (d : DB)
    (w : World) :
  (∀ r, r ∈ returned (getTasks None d w) ↔ record_of d TASKS r)
  ∧ (projectId ≠ "" →
     ∀ r, r ∈ returned (getTasks (Some projectId) d w) ↔
          record_of d TASKS r ∧ r !! "projectId" = Some (VStr projectId))
  ∧ getTasks (Some "") d w = getTasks None d w
  ∧ (∀ r, r ∈ returned (getEvidence taskId d w) ↔
          record_of d EVIDENCE r ∧ r !! "taskId" = Some (VStr taskId)).
Proof.
  unfold getTasks, getEvidence, dbHelper_getByIndex, dbHelper_getAll. steps.
  split; [intros r; apply in_key_order_elem|]. split; [|split; [done|]].
  - intros Hp%String.eqb_neq. unfold truthy_str. rewrite Hp. simpl.
    intros r. rewrite list_elem_of_In, filter_In, <- list_elem_of_In.
    by rewrite in_key_order_elem, strict_eq_str.
  - intros r. rewrite list_elem_of_In, filter_In, <- list_elem_of_In.
    by rewrite in_key_order_elem, strict_eq_str.
Qed.

(** X17: [updateTask] on an id that is not stored does nothing, and it
    never changes evidence.  On a task stored under its own id, with
    updates that carry no [id], it changes no other task and gives each
    property but [updatedAt] the value of the update where there is one and
    the stored value otherwise; with updates that carry another [id] it
    leaves the task as it was and writes the merged record under that other
    id. *)
Theorem updateTask_edges (taskId other : string) (updates task : obj)
    (d : DB) (w : World) :
  let after := stored (updateTask taskId updates d w) in
  (tasks d !! taskId = None → updateTask taskId updates d w = (tt, d, w))
  ∧ evidence after = evidence d
  ∧ (tasks d !! taskId = Some task → task !! "id" = Some (VStr taskId) →
     (updates !! "id" = None →
        (∀ key, key ≠ taskId → tasks after !! key = tasks d !! key)
        ∧ ∀ field, field ≠ "updatedAt" →
            field_of (tasks after) taskId field
            = match updates !! field with
              | Some v => Some v
              | None => task !! field
              end)
     ∧ (updates !! "id" = Some (VStr other) → other ≠ taskId →
        tasks after !! taskId = Some task
        ∧ field_of (tasks after) other "id" = Some (VStr other))).
Proof.
  intros after. subst after. rewrite updateTask_run.
  split; [by intros ->|]. split.
  { destruct (tasks d !! taskId); [|done]. rewrite stored_put.
    by destruct (_ !! "id") as [[| | |k| | |]|]. }
  intros Htask Hid. rewrite Htask. split.
  - intros Hnoid. rewrite stored_put.
    assert (Hkey : (<["updatedAt" := VDate (clock w (ticks w))]>
                      (updates ∪ task) : obj) !! "id"
                   = Some (VStr taskId)).
    { rewrite lookup_insert_ne by done. by rewrite lookup_union_r. }
    rewrite Hkey. cbn [objectStore with_objectStore tasks]. split.
    + intros key Hne. by rewrite lookup_insert_ne.
    + intros field Hf. unfold field_of. rewrite lookup_insert_eq. simpl.
      rewrite lookup_insert_ne by done.
      destruct (updates !! field) as [v|] eqn:E.
      * by apply lookup_union_Some_l.
      * by rewrite lookup_union_r.
  - intros Hother Hne. rewrite stored_put.
    assert (Hkey : (<["updatedAt" := VDate (clock w (ticks w))]>
                      (updates ∪ task) : obj) !! "id"
                   = Some (VStr other)).
    { rewrite lookup_insert_ne by done. by apply lookup_union_Some_l. }
    rewrite Hkey. cbn [objectStore with_objectStore tasks]. split.
    + by rewrite lookup_insert_ne.
    + unfold field_of. rewrite lookup_insert_eq. done.
Qed.

(** X18: [saveTasks] replaces the task store and leaves evidence alone:
    every task stored afterwards is one of the tasks given; when the tasks
    given have distinct string ids, each of them is stored; and saving what
    [getTasks] returns gives back a database whose tasks are stored under
    their own ids. *)
Theorem saveTasks_replaces (items : list obj) (d : DB) (w w' : World) :
  let after := stored (saveTasks items d w) in
  evidence after = evidence d
  ∧ (∀ r, record_of after TASKS r → r ∈ items)
  ∧ (Forall (λ t : obj, ∃ k, t !! "id" = Some (VStr k)) items →
     NoDup (column "id" items) →
     ∀ r, r ∈ items → record_of after TASKS r)
  ∧ (keyed (tasks d) →
     stored (saveTasks (returned (getTasks None d w)) d w') = d).
Proof.
  unfold saveTasks, dbHelper_putMany, getTasks, dbHelper_getAll. steps.
  cbn [objectStore with_objectStore tasks evidence].
  split; [done|]. split; [|split].
  - intros r [key [Hin|Hempty]%put_each_from]; [done|].
    by rewrite lookup_empty in Hempty.
  - intros Hall Hnd r Hin.
    pose proof Hall as Hall'. rewrite Forall_forall in Hall'.
    destruct (Hall' r Hin) as [key Hkey].
    exists key. cbn. by apply put_each_holds.
  - intros Hkeyed. rewrite put_each_in_key_order by done. by destruct d.
Qed.

(** X19: [addToSyncQueue] appends an item that has a [projectId] to the
    tasks of the queue and any other item to its evidence; the other list
    and the time of the last sync stay as they were. *)
Theorem addToSyncQueue_routes (item : obj) (s : QueueStore)
    (w w' : World) :
  let before := returned (getSyncQueue s w) in
  let after :=
    returned (getSyncQueue (stored (addToSyncQueue item s w)) w') in
  lastSyncAt after = lastSyncAt before
  ∧ (is_Some (item !! "projectId") →
     queue_tasks after = queue_tasks before ++ [item]
     ∧ queue_evidence after = queue_evidence before)
  ∧ (item !! "projectId" = None →
     queue_tasks after = queue_tasks before
     ∧ queue_evidence after = queue_evidence before ++ [item]).
Proof.
  unfold addToSyncQueue, getSyncQueue. steps.
  rewrite lookup_insert_eq. simpl.
  destruct (item !! "projectId") as [p|]; simpl.
  - split; [done|]. split; [done|]. by intros [=].
  - split; [done|]. split; [by intros [? [=]]|done].
Qed.

(** X20: after [updateLastSyncTimestamp], [getLastSyncTimestamp] returns
    the time of that call and the queued items are as before; after
    [clearSyncQueue] the queue is empty and the time of the last sync is
    gone with it. *)
Theorem lastSync_bookkeeping (s : QueueStore) (w w' : World) :
  let stamped := stored (updateLastSyncTimestamp s w) in
  returned (getLastSyncTimestamp stamped w') = Some (clock w (ticks w))
  ∧ queue_tasks (returned (getSyncQueue stamped w'))
    = queue_tasks (returned (getSyncQueue s w))
  ∧ queue_evidence (returned (getSyncQueue stamped w'))
    = queue_evidence (returned (getSyncQueue s w))
  ∧ returned (getSyncQueue (stored (clearSyncQueue stamped w')) w')
    = emptyQueue
  ∧ returned (getLastSyncTimestamp (stored (clearSyncQueue stamped w')) w')
    = None.
Proof.
  unfold updateLastSyncTimestamp, getLastSyncTimestamp, clearSyncQueue,
    getSyncQueue. steps. by rewrite !lookup_insert_eq.
Qed.

Lemma database_keyed : db_keyed Samples.database.
Proof.
  split; intros key r; cbn.
  - intros [[<- <-]|[_ [<- <-]%lookup_singleton_Some]]%lookup_insert_Some;
      by vm_compute.
  - intros [<- <-]%lookup_singleton_Some. by vm_compute.
Qed.

Lemma records_keyed_by_id_witness :
  db_keyed Samples.database
  ∧ db_keyed (stored (updateTask "task-2" Samples.completed
                        Samples.database Samples.world)).
Proof.
  split; [exact database_keyed|].
  destruct (records_keyed_by_id ∅ Samples.completed "task-2" []
              Samples.database Samples.world database_keyed)
    as (_ & _ & Hupdate & _).
  exact Hupdate.
Defined.

Lemma pending_task_id :
  Samples.pending_task !! "id" = Some (VStr "task-1").
Proof. by vm_compute. Qed.

(** Adding a task under an id in use leaves the number of tasks. *)
Lemma addTask_upserts_witness :
  Samples.pending_task !! "id" = Some (VStr "task-1")
  ∧ size (tasks (stored (addTask Samples.pending_task Samples.database
                           Samples.world))) = 2%nat.
Proof.
  split; [exact pending_task_id|].
  destruct (addTask_upserts Samples.pending_task "task-1" Samples.database
              Samples.world Samples.world pending_task_id)
    as (_ & _ & -> & _).
  by vm_compute.
Defined.

End WebStorageMore.

(* ================================================================== *)
(** * Further properties of the project detail screen *)
(* ================================================================== *)
Module ScreenMore.
Import Js JsFacts WebStorage SyncSpec WebStorageFacts ProjectDetail.
Import ScreenFacts ExtraSpec WebStorageMore.

Section Screen.
Context `{Runtime}.

Lemma handleAddTask_task (s : Screen) (w : World) :
  trim (title (newTask s)) ≠ "" →
  let r := handleAddTask s w in
  ∃ task,
    tasks (db (stored r)) !! pretty (clock w (ticks w)) = Some task
    ∧ task !! "id" = Some (VStr (pretty (clock w (ticks w))))
    ∧ task !! "projectId" = Some (VStr (project_id s))
    ∧ task !! "title" = Some (VStr (title (newTask s)))
    ∧ task !! "status" = Some (VStr "pending")
    ∧ task !! "needsSync" = Some (VBool (negb (isConnected s)))
    ∧ task !! "syncStatus" = None
    ∧ screen_tasks (stored r) = screen_tasks s ++ [task]
    ∧ newTask (stored r)
      = {| title := ""; description := ""; dueDate := "" |}
    ∧ evidence (db (stored r)) = evidence (db s)
    ∧ ∀ key, key ≠ pretty (clock w (ticks w)) →
             tasks (db (stored r)) !! key = tasks (db s) !! key.
Proof.
  intros Hne%String.eqb_neq r. subst r.
  unfold handleAddTask. screen_steps.
  unfold truthy_str. rewrite Hne. simpl.
  rewrite dbHelper_put_run. screen_steps.
  match goal with
  | |- context [screen_tasks s ++ [?t] = _] => set (task := t)
  end.
  assert (Hfields :
    task !! "id" = Some (VStr (pretty (clock w (ticks w))))
    ∧ task !! "projectId" = Some (VStr (project_id s))
    ∧ task !! "title" = Some (VStr (title (newTask s)))
    ∧ task !! "status" = Some (VStr "pending")
    ∧ task !! "needsSync" = Some (VBool (negb (isConnected s)))
    ∧ task !! "syncStatus" = None).
  { subst task. destruct (negb _); repeat split; by simplify_map_eq. }
  destruct Hfields as (Hid & Hproject & Htitle & Hstatus & Hflag & Hsync).
  exists task. rewrite Hid.
  cbn [with_objectStore objectStore tasks evidence].
  split; [apply lookup_insert_eq|].
  do 6 (split; [done|]). do 3 (split; [done|]).
  intros key Hkey. by rewrite lookup_insert_ne.
Qed.

(** X21: [handleAddTask] with a title that is blank once trimmed changes
    nothing.  Otherwise it stores, under the time of the call as id, a
    pending task of the project with the title as typed, [needsSync] set to
    whether the device is offline and no [syncStatus]; it appends that task
    to the list shown, empties the form, and changes no other task and no
    evidence. *)
Theorem handleAddTask_outcome (s : Screen) (w : World) :
  let r := handleAddTask s w in
  (trim (title (newTask s)) = "" → r = (tt, s, w))
  ∧ (trim (title (newTask s)) ≠ "" →
     ∃ task,
       tasks (db (stored r)) !! pretty (clock w (ticks w)) = Some task
       ∧ task !! "id" = Some (VStr (pretty (clock w (ticks w))))
       ∧ task !! "projectId" = Some (VStr (project_id s))
       ∧ task !! "title" = Some (VStr (title (newTask s)))
       ∧ task !! "status" = Some (VStr "pending")
       ∧ task !! "needsSync" = Some (VBool (negb (isConnected s)))
       ∧ task !! "syncStatus" = None
       ∧ screen_tasks (stored r) = screen_tasks s ++ [task]
       ∧ newTask (stored r)
         = {| title := ""; description := ""; dueDate := "" |}
       ∧ evidence (db (stored r)) = evidence (db s)
       ∧ ∀ key, key ≠ pretty (clock w (ticks w)) →
                tasks (db (stored r)) !! key = tasks (db s) !! key).
Proof.
  intros r. split; [|apply handleAddTask_task].
  subst r. unfold handleAddTask. screen_steps.
  intros ->. simpl. by destruct s.
Qed.

End Screen.


Lemma handleFileSelect_evidence (file : UploadedFile) (selected : string)
    (s : Screen) (w : World) :
  selectedTaskId s = Some selected → selected ≠ "" →
  let r := handleFileSelect file s w in
  let key := "evidence-" +:+ pretty (clock w (ticks w)) in
  ∃ e : obj,
    evidence (db (stored r)) = <[key := e]> (evidence (db s))
    ∧ tasks (db (stored r)) = tasks (db s)
    ∧ screen_tasks (stored r)
      = returned (getTasks (Some (project_id s)) (db s) w)
    ∧ e !! "id" = Some (VStr key)
    ∧ e !! "taskId" = Some (VStr selected)
    ∧ e !! "type" = Some (VStr (if String.prefix "image/" (type file)
                                then "photo" else "document"))
    ∧ e !! "needsSync" = Some (VBool (negb (isConnected s)))
    ∧ e !! "syncStatus" = Some (VStr "pending").
Proof.
  intros Hsel Hne%String.eqb_neq r key. subst r key.
  unfold handleFileSelect. screen_steps. rewrite Hsel.
  unfold truthy_str. rewrite Hne. cbn [negb].
  rewrite dbHelper_put_run. screen_steps.
  match goal with
  | |- context [match ?t !! "id" with _ => _ end] => set (e := t)
  end.
  assert (Hid : e !! "id"
                = Some (VStr ("evidence-" +:+ pretty (clock w (ticks w)))))
    by (subst e; by simplify_map_eq).
  rewrite Hid. exists e.
  destruct (negb (project_id s =? "")%string);
    unfold dbHelper_getByIndex, dbHelper_getAll; screen_steps;
    cbn [with_objectStore objectStore tasks evidence];
    (split; [done|]); (split; [done|]); (split; [done|]);
    subst e; repeat split; by simplify_map_eq.
Qed.

(** X23: [handleFileSelect] without a selected task, or with the empty
    string selected, changes nothing.  Otherwise it stores one evidence
    record under [evidence-] followed by the time of the call, for the
    selected task, typed photo for an image and document for anything else,
    with [needsSync] set to whether the device is offline and [syncStatus]
    pending; it changes no stored task, and the list shown afterwards is
    the stored tasks of the project, so the evidence it attached to the
    task shown is not in that list. *)
Theorem handleFileSelect_outcome (file : UploadedFile) (s : Screen)
    (w : World) :
  let r := handleFileSelect file s w in
  (selectedTaskId s = None ∨ selectedTaskId s = Some "" → r = (tt, s, w))
  ∧ (∀ selected, selectedTaskId s = Some selected → selected ≠ "" →
     ∃ e : obj,
       evidence (db (stored r))
       = <["evidence-" +:+ pretty (clock w (ticks w)) := e]>
           (evidence (db s))
       ∧ tasks (db (stored r)) = tasks (db s)
       ∧ screen_tasks (stored r)
         = returned (getTasks (Some (project_id s)) (db s) w)
       ∧ e !! "id"
         = Some (VStr ("evidence-" +:+ pretty (clock w (ticks w))))
       ∧ e !! "taskId" = Some (VStr selected)
       ∧ e !! "type" = Some (VStr (if String.prefix "image/" (type file)
                                   then "photo" else "document"))
       ∧ e !! "needsSync" = Some (VBool (negb (isConnected s)))
       ∧ e !! "syncStatus" = Some (VStr "pending")).
Proof.
  intros r. split.
  - subst r. unfold handleFileSelect. screen_steps.
    intros [->| ->]; by destruct s.
  - intros selected Hsel Hne.
    exact (handleFileSelect_evidence file selected s w Hsel Hne).
Qed.

(** X24: a task made by [handleAddTask] is among the pending tasks that
    [getItemsNeedingSync] returns exactly when it was made offline, for it
    has no [syncStatus]; an evidence record made by [handleFileSelect] is
    always among the pending evidence, for its [syncStatus] is pending
    whether the device was online or not. *)
Theorem created_records_and_sync `{Runtime} (file : UploadedFile)
    (s : Screen) (w w' : World) :
  (trim (title (newTask s)) ≠ "" →
   ∃ task,
     tasks (db (stored (handleAddTask s w))) !! pretty (clock w (ticks w))
     = Some task
     ∧ (task ∈ pendingTasks
                 (returned (getItemsNeedingSync
                              (db (stored (handleAddTask s w))) w'))
        ↔ isConnected s = false))
  ∧ (∀ selected, selectedTaskId s = Some selected → selected ≠ "" →
     ∃ e,
       evidence (db (stored (handleFileSelect file s w)))
         !! ("evidence-" +:+ pretty (clock w (ticks w))) = Some e
       ∧ e ∈ pendingEvidence
               (returned (getItemsNeedingSync
                            (db (stored (handleFileSelect file s w))) w'))).
Proof.
  split.
  - intros Hne.
    destruct (handleAddTask_task s w Hne)
      as (task & Hstored & _ & _ & _ & _ & Hflag & Hsync & _).
    exists task. split; [done|].
    destruct (pending_elem (db (stored (handleAddTask s w))) w' task)
      as [-> _].
    unfold needsSyncing. rewrite Hflag, Hsync. simpl.
    rewrite !orb_false_r. split.
    + intros [_ Hoff]. by apply negb_true_iff.
    + intros ->. split; [|done]. by eexists.
  - intros selected Hsel Hne.
    destruct (handleFileSelect_evidence file selected s w Hsel Hne)
      as (e & Hev & _ & _ & _ & _ & _ & _ & Hsync).
    exists e. rewrite Hev. split; [apply lookup_insert_eq|].
    destruct (pending_elem (db (stored (handleFileSelect file s w))) w' e)
      as [_ ->].
    split.
    + eexists. cbn [objectStore]. rewrite Hev. apply lookup_insert_eq.
    + unfold needsSyncing. rewrite Hsync.
      apply orb_true_iff. left. apply orb_true_iff. by right.
Qed.

End ScreenMore.
